(** * Normalisation baseline and POS-alignment: a shallow embedding

    The development follows the two scripts of the repository:
    [baseline.py] (module [Baseline]) builds a frequency table from the
    training lines and normalises tokens with it; [evaluation.py] (module
    [Evaluation]) re-attaches the tags of an external tagger to the fixed
    reference tokenisation and computes accuracies.

    A Python [str] is modelled by [string]; a character stands for a code
    point below 256.  Python exceptions are values of [exn], and a
    computation that may raise has type [result A].  Python integers that
    only count upwards from zero are [nat]. *)

From Stdlib Require Import String Ascii List Arith Bool Lia.
Import ListNotations.
Open Scope string_scope.

(** ** Python primitives used by both scripts *)

Module Py.

Inductive exn : Type := IndexError | ValueError | ZeroDivisionError.

Inductive result (A : Type) : Type :=
| Ok (a : A)
| Raise (e : exn).
Arguments Ok {A} a.
Arguments Raise {A} e.

Definition bind {A B : Type} (m : result A) (k : A -> result B) : result B :=
  match m with
  | Ok a => k a
  | Raise e => Raise e
  end.

(** [for x in l: ...] where the body may raise and produces one value. *)
Fixpoint mapM {A B : Type} (f : A -> result B) (l : list A) : result (list B) :=
  match l with
  | [] => Ok []
  | x :: l' =>
      bind (f x) (fun y => bind (mapM f l') (fun ys => Ok (y :: ys)))
  end.

(** [for x in l: ...] where the body may raise and updates a state. *)
Fixpoint foldM {A S : Type} (f : S -> A -> result S) (l : list A) (s : S)
  : result S :=
  match l with
  | [] => Ok s
  | x :: l' => bind (f s x) (foldM f l')
  end.

(** [l[i]] for a non-negative index. *)
Definition index {A : Type} (l : list A) (i : nat) : result A :=
  match nth_error l i with
  | Some x => Ok x
  | None => Raise IndexError
  end.

Definition TAB : ascii := "009"%char.
Definition LF : ascii := "010"%char.
Definition tab : string := String TAB EmptyString.
(** The one-character string ['\n']. *)
Definition nl : string := String LF EmptyString.

(** [s.split(sep)] for a one-character separator: never empty. *)
Fixpoint split (sep : ascii) (s : string) : list string :=
  match s with
  | EmptyString => [EmptyString]
  | String c s' =>
      if Ascii.eqb c sep then EmptyString :: split sep s'
      else match split sep s' with
           | f :: fs => String c f :: fs
           | [] => [String c EmptyString]
           end
  end.

(** [str.isspace] on one character, code points below 256: TAB, LF, VT, FF,
    CR, the separators FS, GS, RS, US, the space, NEL and NBSP. *)
Definition isspace (c : ascii) : bool :=
  let n := nat_of_ascii c in
  (((9 <=? n) && (n <=? 13)) || ((28 <=? n) && (n <=? 32))
   || (n =? 133) || (n =? 160))%nat.

(** Whether the next character, if any, ends the current word. *)
Definition at_word_end (s : string) : bool :=
  match s with
  | EmptyString => true
  | String c _ => isspace c
  end.

(** [s.split()]: the maximal runs of characters that are not white space. *)
Fixpoint split_ws (s : string) : list string :=
  match s with
  | EmptyString => []
  | String c s' =>
      if isspace c then split_ws s'
      else if at_word_end s' then String c EmptyString :: split_ws s'
      else match split_ws s' with
           | w :: ws => String c w :: ws
           | [] => [String c EmptyString]
           end
  end.

(** [s.rstrip()]. *)
Fixpoint rstrip (s : string) : string :=
  match s with
  | EmptyString => EmptyString
  | String c s' =>
      match rstrip s' with
      | EmptyString => if isspace c then EmptyString else String c EmptyString
      | r => String c r
      end
  end.

(** [s.startswith(p)]. *)
Definition startswith (s p : string) : bool := String.prefix p s.

(** [sep.join(l)]. *)
Definition join (sep : string) (l : list string) : string := String.concat sep l.

(** An insertion-ordered [dict] with string keys. *)
Definition dict (V : Type) : Type := list (string * V).

Fixpoint dict_get {V : Type} (d : dict V) (k : string) : option V :=
  match d with
  | [] => None
  | (k', v) :: d' => if k' =? k then Some v else dict_get d' k
  end.

(** [d[k] = v]: an existing key keeps its place. *)
Fixpoint dict_set {V : Type} (d : dict V) (k : string) (v : V) : dict V :=
  match d with
  | [] => [(k, v)]
  | (k', v') :: d' =>
      if k' =? k then (k', v) :: d' else (k', v') :: dict_set d' k v
  end.

Definition dict_keys {V : Type} (d : dict V) : list string := map fst d.

(** [c in chars]. *)
Definition mem_char (c : ascii) (chars : string) : bool :=
  existsb (Ascii.eqb c) (list_ascii_of_string chars).

(** [s.rstrip(chars)]: drops the trailing characters that occur in [chars]. *)
Fixpoint rstrip_chars (chars s : string) : string :=
  match s with
  | EmptyString => EmptyString
  | String c s' =>
      match rstrip_chars chars s' with
      | EmptyString =>
          if mem_char c chars then EmptyString else String c EmptyString
      | r => String c r
      end
  end.

End Py.

Import Py.

Declare Scope py_scope.
Notation "x <- m ;; k" := (bind m (fun x => k))
  (at level 61, m at next level, right associativity) : py_scope.
Open Scope py_scope.

(** ** baseline.py *)

Module Baseline.

(** An element of [word_pair_list]: the string ['\n'] for an empty line, or
    the tuple (non-standard, gold normalisation). *)
Inductive word_pair : Type :=
| Newline
| Pair (non_standard normalization : string).

Definition word_pair_eqb (a b : word_pair) : bool :=
  match a, b with
  | Newline, Newline => true
  | Pair a0 a1, Pair b0 b1 => (a0 =? b0) && (a1 =? b1)
  | _, _ => false
  end.

(** [item[0]]: the first character of ['\n'] is ['\n'] itself, the first
    component of a tuple otherwise.  It never raises. *)
Definition item_0 (item : word_pair) : result string :=
  match item with
  | Newline => Ok nl
  | Pair a _ => Ok a
  end.

(** [item[1]]: ['\n'] has one character only. *)
Definition item_1 (item : word_pair) : result string :=
  match item with
  | Newline => Raise IndexError
  | Pair _ b => Ok b
  end.

Definition get_tuple (line : string) : result word_pair :=
  if line =? nl then Ok Newline
  else
    a <- index (split TAB line) 0 ;;
    b <- index (split TAB line) 1 ;;
    Ok (Pair a b).

Definition get_tuples (tokens_train : list string) : result (list word_pair) :=
  mapM get_tuple tokens_train.

(** [collections.Counter]: keys in first-insertion order. *)
Definition Counter : Type := list (word_pair * nat).

Fixpoint counter_add (c : Counter) (x : word_pair) : Counter :=
  match c with
  | [] => [(x, 1)]
  | (y, n) :: c' =>
      if word_pair_eqb y x then (y, S n) :: c' else (y, n) :: counter_add c' x
  end.

Definition counter_of (l : list word_pair) : Counter :=
  fold_left counter_add l [].

(** [c[x]]: a missing key counts zero. *)
Fixpoint counter_get (c : Counter) (x : word_pair) : nat :=
  match c with
  | [] => 0
  | (y, n) :: c' => if word_pair_eqb y x then n else counter_get c' x
  end.

Definition get_norm_freq (tokens_train : list string) : result Counter :=
  word_pair_list <- get_tuples tokens_train ;;
  Ok (counter_of word_pair_list).

(** The table [d]: non-standard form to the list of (normalisation, count). *)
Definition table : Type := dict (list (string * nat)).

(** [d[key].append(v)]. *)
Fixpoint dict_append (d : table) (key : string) (v : string * nat) : table :=
  match d with
  | [] => []
  | (k, l) :: d' =>
      if k =? key then (k, (l ++ [v])%list) :: d' else (k, l) :: dict_append d' key v
  end.

(** [try: ... except IndexError: pass] around a state update. *)
Definition except_IndexError_pass {S : Type} (s : S) (m : result S) : result S :=
  match m with
  | Raise IndexError => Ok s
  | r => r
  end.

(** Body of the first loop of [translation_dict]. *)
Definition init_key (d : table) (item : word_pair) : result table :=
  except_IndexError_pass d (k <- item_0 item ;; Ok (dict_set d k [])).

(** Body of the inner loop of the second loop of [translation_dict]. *)
Definition fill_key (word_pair_counts : Counter) (key : string) (d : table)
    (item : word_pair) : result table :=
  except_IndexError_pass d
    (k <- item_0 item ;;
     if key =? k then
       n <- item_1 item ;;
       Ok (dict_append d key (n, counter_get word_pair_counts item))
     else Ok d).

Definition translation_dict (tokens_train : list string) : result table :=
  word_pair_counts <- get_norm_freq tokens_train ;;
  d <- foldM init_key (map fst word_pair_counts) [] ;;
  foldM (fun d key => foldM (fill_key word_pair_counts key)
                            (map fst word_pair_counts) d)
        (dict_keys d) d.

(** [max(l, key=lambda x: x[1])]: the first element among those of greatest
    count; [ValueError] on the empty list. *)
Fixpoint max_from (best : string * nat) (l : list (string * nat))
  : string * nat :=
  match l with
  | [] => best
  | x :: l' => if (snd best <? snd x)%nat then max_from x l' else max_from best l'
  end.

Definition max_by_count (l : list (string * nat)) : result (string * nat) :=
  match l with
  | [] => Raise ValueError
  | x :: l' => Ok (max_from x l')
  end.

(** The five columns of an output line; [line_out] is the string written. *)
Record out_record : Type := {
  n_strategy : string;
  non_standard : string;
  n_pred : string;
  standard : string;
  POS : string
}.

Definition line_out (r : out_record) : string :=
  n_strategy r ++ tab ++ non_standard r ++ tab ++ n_pred r ++ tab
  ++ standard r ++ tab ++ POS r.

(** The strategy and prediction for one non-standard form. *)
Definition predict (d : table) (ns : string) : result (string * string) :=
  match dict_get d ns with
  | Some list_tuples =>
      if (length list_tuples =? 1)%nat then
        x <- index list_tuples 0 ;; Ok ("U", fst x)
      else
        x <- max_by_count list_tuples ;; Ok ("A", fst x)
  | None => Ok ("N", ns)
  end.

(** Body of the loop of [normalize]: the record of a non-empty line. *)
Definition normalize_record (d : table) (line : string) : result out_record :=
  ns <- index (split TAB line) 0 ;;
  std <- index (split TAB line) 1 ;;
  pos <- index (split TAB line) 2 ;;
  sp <- predict d ns ;;
  Ok {| n_strategy := fst sp; non_standard := ns; n_pred := snd sp;
        standard := std; POS := pos |}.

(** Body of the loop of [normalize]: the string passed to [f_out.write]. *)
Definition normalize_line (d : table) (line : string) : result string :=
  if line =? nl then Ok nl
  else r <- normalize_record d line ;; Ok (line_out r).

(** [normalize]: the sequence of strings written to the output file, one
    [write] per input line. *)
Definition normalize (tokens_train tokens_dev_or_test : list string)
  : result (list string) :=
  d <- translation_dict tokens_train ;;
  mapM (normalize_line d) tokens_dev_or_test.

(** [path_out] of [normalize]. *)
Definition path_out (path_in : string) : string := path_in ++ "_norm_out.txt".

(** [normalize] with the name of the file it writes. *)
Definition normalize_file (tokens_train tokens_dev_or_test : list string)
    (path_in : string) : result (string * list string) :=
  outs <- normalize tokens_train tokens_dev_or_test ;;
  Ok (path_out path_in, outs).

(** [f_dev.name.rstrip(".txt")] in [main]. *)
Definition dev_path_in (name : string) : string := rstrip_chars ".txt" name.

(** [f_test.name.rstrip("txt").rstrip(".")] in [main]. *)
Definition test_path_in (name : string) : string :=
  rstrip_chars "." (rstrip_chars "txt" name).

(** [main], from the names of the development and test files and the
    lines read from the three files: the files written, in order. *)
Definition main (dev_name test_name : string)
    (train_lines dev_lines test_lines : list string)
  : result (list (string * list string)) :=
  dev_out <- normalize_file train_lines dev_lines (dev_path_in dev_name) ;;
  test_out <- normalize_file train_lines test_lines (test_path_in test_name) ;;
  Ok [dev_out; test_out].

End Baseline.

(** ** evaluation.py *)

Module Evaluation.

(** [sent_boundaries]: appends ['\n'] to [lines] in place, then collects the
    indexes of the empty lines.  The list after the call is returned too. *)
Definition sent_boundaries (lines : list string) : list nat * list string :=
  let lines' := (lines ++ [nl])%list in
  (filter (fun i => match nth_error lines' i with
                    | Some l => l =? nl
                    | None => false
                    end)
          (seq 0 (length lines')),
   lines').

(** Body of the loop of [extract_sentences]; the state is [sentence],
    [sentences] and the list [lines], which every call of
    [sent_boundaries] extends. *)
Definition extract_step (st : list string * list string * list string)
    (it : nat * string) : list string * list string * list string :=
  let '(sentence, sentences, lines) := st in
  let '(i, token) := it in
  let '(boundaries, lines') := sent_boundaries lines in
  if existsb (Nat.eqb i) boundaries
  then ([], (sentences ++ [join " " sentence])%list, lines')
  else ((sentence ++ [token])%list, sentences, lines').

(** [extract_sentences]: returns the sentences, and the two argument lists
    as the call leaves them ([text] has one more ['\n']). *)
Definition extract_sentences (text lines : list string)
  : list string * list string * list string :=
  let text' := (text ++ [nl])%list in
  let '(_, sentences, lines') :=
    fold_left extract_step (combine (seq 0 (length text')) text') ([], [], lines)
  in (sentences, text', lines').

(** An element of [POS_predicted]: a tuple (token, tag) or the string
    ['\n'] that closes a sentence. *)
Inductive tagged : Type :=
| Tok (text tag : string)
| Sep.

Definition tok (p : string * string) : tagged := Tok (fst p) (snd p).

(** An element of [correct_POS]: the string ['\n'] or a tuple (word, tag). *)
Inductive aligned : Type :=
| ANewline
| APair (word tag : string).

(** The table of forms that the tagger splits although the input file
    does not: form to (tag, number of tagger tokens). *)
Definition d : dict (string * nat) :=
  [ ("!!!", ("$.", 3));
    ("!!", ("$.", 2));
    ("!!!!!", ("$.", 5));
    ("??", ("$.", 2));
    ("?!", ("$.", 2));
    ("*_*", ("EMO", 3));
    (";P", ("EMO", 2));
    (":\", ("$.", 2));
    ("evt.", ("ADV", 2));
    ("[StreetAddress]", ("NN", 3));
    ("[LastName]", ("NN", 3));
    ("*google*", ("NE", 3));
    ("Z.b.", ("NN", 2)) ].

(** [(predicted_POS[i][0], predicted_POS[i][1])]: out of range raises, and
    so does the second character of ['\n']. *)
Definition tok_at (predicted_POS : list tagged) (i : nat)
  : result (string * string) :=
  e <- index predicted_POS i ;;
  match e with
  | Tok w t => Ok (w, t)
  | Sep => Raise IndexError
  end.

(** Body of the first loop of [correct_pos]; the state is the cursor [i]
    and the list [correct_POS]. *)
Definition align_step (predicted_POS : list tagged)
    (st : nat * list aligned) (word : string) : result (nat * list aligned) :=
  let '(i, correct_POS) := st in
  match length (split_ws word) with
  | 0 => Ok (i + 1, (correct_POS ++ [ANewline])%list)
  | 1 =>
      match dict_get d word with
      | Some (tag, n) => Ok (i + n, (correct_POS ++ [APair word tag])%list)
      | None =>
          p <- tok_at predicted_POS i ;;
          Ok (i + 1, (correct_POS ++ [APair (fst p) (snd p)])%list)
      end
  | 2 =>
      p1 <- tok_at predicted_POS i ;;
      p2 <- tok_at predicted_POS (i + 1) ;;
      Ok (i + 2,
          (correct_POS ++ [APair (fst p1 ++ "+" ++ fst p2)
                                 (snd p1 ++ "+" ++ snd p2)])%list)
  | 3 =>
      p1 <- tok_at predicted_POS i ;;
      p2 <- tok_at predicted_POS (i + 1) ;;
      p3 <- tok_at predicted_POS (i + 2) ;;
      Ok (i + 3,
          (correct_POS ++ [APair (fst p1 ++ "+" ++ fst p2 ++ "+" ++ fst p3)
                                 (snd p1 ++ "+" ++ snd p2 ++ "+" ++ snd p3)])%list)
  | 4 =>
      p1 <- tok_at predicted_POS i ;;
      p2 <- tok_at predicted_POS (i + 1) ;;
      p3 <- tok_at predicted_POS (i + 2) ;;
      p4 <- tok_at predicted_POS (i + 3) ;;
      Ok (i + 4,
          (correct_POS
           ++ [APair (fst p1 ++ "+" ++ fst p2 ++ "+" ++ fst p3 ++ "+" ++ fst p4)
                     (snd p1 ++ "+" ++ snd p2 ++ "+" ++ snd p3 ++ "+" ++ snd p4)])%list)
  | _ => Ok (i, correct_POS)
  end.

(** Body of the second loop of [correct_pos]. *)
Definition pos_only (item : aligned) : string :=
  match item with
  | ANewline => nl
  | APair _ tag => tag
  end.

(** The first loop of [correct_pos], from cursor 0 and the empty list. *)
Definition align (predicted_POS : list tagged) (orig_tokens : list string)
  : result (nat * list aligned) :=
  foldM (align_step predicted_POS) orig_tokens (0, []).

Section Tagger.

(** The tagger: a sentence to its (token, tag) pairs. *)
Variable nlp : string -> list (string * string).

Definition predict_pos (text : list string) : list tagged :=
  flat_map (fun sent => (map tok (nlp sent) ++ [Sep])%list) text.

Definition correct_pos (text orig_tokens : list string) : result (list string) :=
  let predicted_POS := predict_pos text in
  st <- align predicted_POS orig_tokens ;;
  let correct_POS := removelast (snd st) in
  Ok (map pos_only correct_POS).

(** The two statements of [main] for one column: [extract_sentences] on the
    token list, then [correct_pos] on the sentences and on the same list,
    which the first call has extended.  Also returns [lines] as left. *)
Definition tag_column (text lines : list string)
  : result (list string * list string) :=
  let '(sentences, text', lines') := extract_sentences text lines in
  POS <- correct_pos sentences text' ;;
  Ok (POS, lines').

End Tagger.

(** The counters of one strategy in [calculate_accuracies]. *)
Record tally : Type := {
  n : nat;
  same_lb : nat;
  same_ub : nat;
  same_b : nat
}.

Record tallies : Type := {
  unique : tally;
  ambigue : tally;
  new : tally
}.

Definition tally0 : tally := {| n := 0; same_lb := 0; same_ub := 0; same_b := 0 |}.

Definition incr_if (b : bool) (k : nat) : nat := if b then k + 1 else k.

(** The three comparisons made for a line of a strategy. *)
Definition count_line (t : tally) (line : string) : result tally :=
  let fields := split TAB line in
  gs <- index fields 4 ;;
  lb <- index fields 5 ;;
  ub <- index fields 6 ;;
  b <- index fields 7 ;;
  Ok {| n := n t + 1;
        same_lb := incr_if (gs =? lb) (same_lb t);
        same_ub := incr_if (gs =? ub) (same_ub t);
        same_b := incr_if (gs =? rstrip b) (same_b t) |}.

(** Body of the counting loop of [calculate_accuracies]. *)
Definition count_step (c : tallies) (line : string) : result tallies :=
  if startswith line "U" then
    t <- count_line (unique c) line ;;
    Ok {| unique := t; ambigue := ambigue c; new := new c |}
  else if startswith line "A" then
    t <- count_line (ambigue c) line ;;
    Ok {| unique := unique c; ambigue := t; new := new c |}
  else if startswith line "N" then
    t <- count_line (new c) line ;;
    Ok {| unique := unique c; ambigue := ambigue c; new := t |}
  else Ok c.

Definition count_lines (lines : list string) : result tallies :=
  foldM count_step lines
        {| unique := tally0; ambigue := tally0; new := tally0 |}.

Section Floats.

(** Python floats and the three float operations of the script: [a / b] on
    integers with [b] not zero, [x * k], and [round(x, k)]. *)
Variable F : Type.
Variable truediv : nat -> nat -> F.
Variable times : F -> nat -> F.
Variable round : F -> nat -> F.

(** [round((same / n)*100, 2)]: the division raises on a zero divisor. *)
Definition accuracy (same n : nat) : result F :=
  if (n =? 0)%nat then Raise ZeroDivisionError
  else Ok (round (times (truediv same n) 100) 2).

(** [calculate_accuracies] on the lines of the file. *)
Definition calculate_accuracies (lines : list string)
  : result ((nat * nat * nat * nat) * (F * F * F * F) * (F * F * F * F)
            * (F * F * F * F)) :=
  c <- count_lines lines ;;
  let U := unique c in
  let A := ambigue c in
  let N := new c in
  let n_total := n U + n A + n N in
  accuracy_lb_u <- accuracy (same_lb U) (n U) ;;
  accuracy_lb_a <- accuracy (same_lb A) (n A) ;;
  accuracy_lb_n <- accuracy (same_lb N) (n N) ;;
  accuracy_total_lb <- accuracy (same_lb U + same_lb A + same_lb N) n_total ;;
  accuracy_ub_u <- accuracy (same_ub U) (n U) ;;
  accuracy_ub_a <- accuracy (same_ub A) (n A) ;;
  accuracy_ub_n <- accuracy (same_ub N) (n N) ;;
  accuracy_total_ub <- accuracy (same_ub U + same_ub A + same_ub N) n_total ;;
  accuracy_b_u <- accuracy (same_b U) (n U) ;;
  accuracy_b_a <- accuracy (same_b A) (n A) ;;
  accuracy_b_n <- accuracy (same_b N) (n N) ;;
  accuracy_total_b <- accuracy (same_b U + same_b A + same_b N) n_total ;;
  Ok ((n U, n A, n N, n_total),
      (accuracy_lb_u, accuracy_lb_a, accuracy_lb_n, accuracy_total_lb),
      (accuracy_ub_u, accuracy_ub_a, accuracy_ub_n, accuracy_total_ub),
      (accuracy_b_u, accuracy_b_a, accuracy_b_n, accuracy_total_b)).

End Floats.

(** Body of the loop of [columns_to_lists]: what a line adds to the lists
    [non_standard_list], [norm_gs_list] and [norm_aut_list]. *)
Definition columns_of_line (line : string) : result (string * string * string) :=
  if line =? nl then Ok (nl, nl, nl)
  else
    non_standard <- index (split TAB line) 1 ;;
    norm_gs <- index (split TAB line) 3 ;;
    norm_aut <- index (split TAB line) 2 ;;
    Ok (rstrip non_standard, rstrip norm_gs, rstrip norm_aut).

Definition columns_to_lists (lines : list string)
  : result (list string * list string * list string) :=
  cols <- mapM columns_of_line lines ;;
  Ok (map (fun c => fst (fst c)) cols,
      map (fun c => snd (fst c)) cols,
      map snd cols).

(** Body of the loop of [write_outfile]: the string written for the line
    of index [i]. *)
Definition write_line (POS_lb POS_ub POS_bl : list string) (it : nat * string)
  : result string :=
  let '(i, line) := it in
  if line =? nl then Ok nl
  else
    lb <- index POS_lb i ;;
    ub <- index POS_ub i ;;
    bl <- index POS_bl i ;;
    Ok (rstrip line ++ tab ++ lb ++ tab ++ ub ++ tab ++ bl ++ nl).

(** [write_outfile]: the name of the file and the strings written to it. *)
Definition write_outfile (orig_lines POS_lb POS_ub POS_bl : list string)
    (path_in : string) : result (string * list string) :=
  outs <- mapM (write_line POS_lb POS_ub POS_bl)
               (combine (seq 0 (length orig_lines)) orig_lines) ;;
  Ok (path_in ++ "POS_out.txt", outs).

(** [f_dev_in.name.rstrip("out.txt")] in [main]. *)
Definition path_in_of (name : string) : string := rstrip_chars "out.txt" name.

Section Main.

Variable nlp : string -> list (string * string).


End Main.

End Evaluation.

(** * Notions used in the statements *)

(** The key under which [translation_dict] files an item: [item[0]]. *)
Definition key_of (item : Baseline.word_pair) : string :=
  match item with
  | Baseline.Newline => nl
  | Baseline.Pair a _ => a
  end.

(** What an item of the counter contributes to the entry of [key]. *)
Definition entry_of (c : Baseline.Counter) (key : string)
    (item : Baseline.word_pair) : list (string * nat) :=
  match item with
  | Baseline.Newline => []
  | Baseline.Pair a b =>
      if key =? a then [(b, Baseline.counter_get c item)] else []
  end.

(** The entry of [key] after the items [items] of the counter. *)
Definition candidates (c : Baseline.Counter) (key : string)
    (items : list Baseline.word_pair) : list (string * nat) :=
  flat_map (entry_of c key) items.

(** A training line that [get_tuples] accepts: empty, or two columns. *)
Definition train_line_ok (line : string) : bool :=
  (line =? nl) || (2 <=? length (split TAB line))%nat.

(** A line that [normalize] accepts: empty, or three columns, the first of
    which is not the string of an empty line. *)
Definition line_ok (line : string) : bool :=
  (line =? nl)
  || ((3 <=? length (split TAB line))%nat
      && negb (hd EmptyString (split TAB line) =? nl)).

(** [len(word.split())]. *)
Definition words (word : string) : nat := length (split_ws word).

(** The entry of [correct_POS] that the aligner fixes for a reference
    token whatever the tagger says: an empty token gets ['\n'], a form of
    the table [d] gets the tag of the table. *)
Definition entry_for (word : string) (e : Evaluation.aligned) : Prop :=
  (words word = 0 -> e = Evaluation.ANewline)
  /\ (forall tag k, words word = 1 ->
       dict_get Evaluation.d word = Some (tag, k) ->
       e = Evaluation.APair word tag).


(** A line of the five-column file for the examples, the same form in
    the three word columns. *)
Definition line_of (word : string) : string :=
  "N" ++ tab ++ word ++ tab ++ word ++ tab ++ word ++ tab ++ "NN" ++ nl.

(** A tagger for the examples: one token per word, tagged [X]. *)
Definition word_tagger (sent : string) : list (string * string) :=
  map (fun w => (w, "X")) (split_ws sent).

(** A line that the counting loop of [calculate_accuracies] accepts: it
    starts with none of the three strategy letters, or has eight columns. *)
Definition report_line_ok (line : string) : bool :=
  negb (startswith line "U" || startswith line "A" || startswith line "N")
  || (8 <=? length (split TAB line))%nat.

(** The number of lines of a strategy in the evaluated file. *)
Definition bucket (strategy : string) (lines : list string) : nat :=
  length (filter (fun line => startswith line strategy) lines).

(** The items of a list in the order in which they are first seen. *)
Definition first_seen_add (seen : list Baseline.word_pair)
    (x : Baseline.word_pair) : list Baseline.word_pair :=
  if existsb (fun y => Baseline.word_pair_eqb y x) seen then seen
  else (seen ++ [x])%list.

Definition first_seen (l : list Baseline.word_pair) : list Baseline.word_pair :=
  fold_left first_seen_add l [].

(** The normalisations that the tuples of [items] record for [key]. *)
Definition normalizations (key : string) (items : list Baseline.word_pair)
  : list string :=
  flat_map (fun item => match item with
                        | Baseline.Newline => []
                        | Baseline.Pair a b => if key =? a then [b] else []
                        end) items.

(** Whether an item is a tuple whose non-standard form is [key]. *)
Definition is_pair_of (key : string) (item : Baseline.word_pair) : bool :=
  match item with
  | Baseline.Newline => false
  | Baseline.Pair a _ => key =? a
  end.

(** The number of training lines whose non-standard form is [key]. *)
Definition occurrences (key : string) (l : list Baseline.word_pair) : nat :=
  length (filter (is_pair_of key) l).

(** The number of occurrences of a word pair in [word_pair_list]. *)
Definition pair_count (x : Baseline.word_pair) (l : list Baseline.word_pair)
  : nat :=
  length (filter (fun y => Baseline.word_pair_eqb y x) l).

(** Whether the last character of [s] is one of [chars]. *)
Fixpoint ends_in (chars s : string) : bool :=
  match s with
  | EmptyString => false
  | String c EmptyString => mem_char c chars
  | String _ s' => ends_in chars s'
  end.

(** Whether every character of [s] is one of [chars]. *)
Definition all_in (chars s : string) : bool :=
  forallb (fun c => mem_char c chars) (list_ascii_of_string s).

(** Whether the lines that are left start with an empty line, or none is
    left. *)
Definition boundary (lines : list string) : bool :=
  match lines with
  | l :: _ => l =? nl
  | [] => true
  end.

(** The sentences closed while walking [text] along [lines], from the
    tokens [sentence] collected so far. *)
Fixpoint group (sentence text lines : list string) : list string :=
  match text with
  | [] => []
  | token :: rest =>
      if boundary lines then join " " sentence :: group [] rest (tl lines)
      else group (sentence ++ [token])%list rest (tl lines)
  end.

(** The token lists between the tokens ['\n'] of [text], the last one
    closed by the end of the list. *)
Fixpoint sentences_of (sentence text : list string) : list (list string) :=
  match text with
  | [] => [sentence]
  | token :: rest =>
      if token =? nl then sentence :: sentences_of [] rest
      else sentences_of (sentence ++ [token])%list rest
  end.

(** The tagger output follows the reference tokens: an empty token stands
    at one entry, a form of the table [d] at as many entries as its entry
    says, any other one-word token at one (token, tag) entry, and a token
    of two to four words at as many (token, tag) entries.  The third list
    holds the entries of [correct_POS] that the tokens then get. *)
Inductive Aligned : list string -> list Evaluation.tagged ->
                    list Evaluation.aligned -> Prop :=
| Aligned_nil : Aligned [] [] []
| Aligned_blank word e tokens s es :
    words word = 0 ->
    Aligned tokens s es ->
    Aligned (word :: tokens) (e :: s) (Evaluation.ANewline :: es)
| Aligned_exception word tag k skipped tokens s es :
    words word = 1 ->
    dict_get Evaluation.d word = Some (tag, k) ->
    length skipped = k ->
    Aligned tokens s es ->
    Aligned (word :: tokens) (skipped ++ s)%list
            (Evaluation.APair word tag :: es)
| Aligned_one word p tokens s es :
    words word = 1 ->
    dict_get Evaluation.d word = None ->
    Aligned tokens s es ->
    Aligned (word :: tokens) (Evaluation.tok p :: s)
            (Evaluation.APair (fst p) (snd p) :: es)
| Aligned_multi word ents tokens s es :
    2 <= words word <= 4 ->
    length ents = words word ->
    Aligned tokens s es ->
    Aligned (word :: tokens) (map Evaluation.tok ents ++ s)%list
            (Evaluation.APair (join "+" (map fst ents))
                              (join "+" (map snd ents)) :: es).

(** A token for which the aligner reads the tagger output. *)
Definition reads (word : string) : Prop :=
  1 <= words word <= 4
  /\ (words word = 1 -> dict_get Evaluation.d word = None).

(** A tagger for the examples that splits the two exclamation marks of
    one sentence, and tags word by word otherwise. *)
Definition splitting_tagger (sent : string) : list (string * string) :=
  if sent =? "a b c !!"
  then [("a", "X"); ("b", "X"); ("c", "X"); ("!", "$."); ("!", "$.")]
  else word_tagger sent.

(** The agreement counters of a strategy do not exceed its total. *)
Definition tally_ok (t : Evaluation.tally) : Prop :=
  Evaluation.same_lb t <= Evaluation.n t
  /\ Evaluation.same_ub t <= Evaluation.n t
  /\ Evaluation.same_b t <= Evaluation.n t.

(** A one-word token that is no form of the table [d]. *)
Definition simple (word : string) : Prop :=
  words word = 1 /\ dict_get Evaluation.d word = None.

(** * Properties *)

Import Baseline Evaluation.

(** ** The string primitives on small inputs *)

Example split_tab_empty_field :
  split TAB ("a" ++ tab ++ tab ++ "b") = ["a"; ""; "b"] /\ split TAB "" = [""].
Proof. split; reflexivity. Qed.

Example split_ws_runs :
  split_ws ("  ab c " ++ tab ++ " d" ++ nl) = ["ab"; "c"; "d"]
  /\ split_ws (" " ++ nl) = [].
Proof. split; reflexivity. Qed.

Example rstrip_trailing : rstrip (" a b  " ++ nl) = " a b".
Proof. reflexivity. Qed.

Example extract_sentences_two :
  extract_sentences ["a"; "b"; nl; "c"]
                    [line_of "a"; line_of "b"; nl; line_of "c"]
  = (["a b"; "c"], ["a"; "b"; nl; "c"; nl],
     [line_of "a"; line_of "b"; nl; line_of "c"; nl; nl; nl; nl; nl]).
Proof. reflexivity. Qed.

(** ** The error monad *)

Lemma bind_Ok_inv {A B : Type} (m : result A) (k : A -> result B) (b : B) :
  bind m k = Ok b -> exists a, m = Ok a /\ k a = Ok b.
Proof.
  destruct m as [a|e]; simpl; intros H; [exists a; auto | discriminate].
Qed.

Lemma mapM_length {A B : Type} (f : A -> result B) (l : list A) (ys : list B) :
  mapM f l = Ok ys -> length ys = length l.
Proof.
  revert ys; induction l as [|x l IH]; simpl; intros ys H.
  - injection H as <-. reflexivity.
  - apply bind_Ok_inv in H as (y & _ & H).
    apply bind_Ok_inv in H as (ys' & Hys & H).
    injection H as <-. simpl. f_equal. now apply IH.
Qed.

Lemma mapM_nth {A B : Type} (f : A -> result B) (l : list A) (ys : list B) :
  mapM f l = Ok ys ->
  forall k x, nth_error l k = Some x ->
  exists y, f x = Ok y /\ nth_error ys k = Some y.
Proof.
  revert ys; induction l as [|x0 l IH]; simpl; intros ys H k x Hk.
  - destruct k; discriminate.
  - apply bind_Ok_inv in H as (y & Hy & H).
    apply bind_Ok_inv in H as (ys' & Hys & H).
    injection H as <-.
    destruct k as [|k]; simpl in *.
    + injection Hk as <-. eauto.
    + eapply IH; eauto.
Qed.

Lemma mapM_total {A B : Type} (f : A -> result B) (l : list A) :
  Forall (fun x => exists y, f x = Ok y) l -> exists ys, mapM f l = Ok ys.
Proof.
  induction 1 as [|x l (y & Hy) _ (ys & Hys)]; simpl.
  - eauto.
  - rewrite Hy, Hys. simpl. eauto.
Qed.

(** ** The choice among several candidates *)

Lemma max_from_split (l : list (string * nat)) : forall best,
  exists before after,
    best :: l = (before ++ max_from best l :: after)%list
    /\ Forall (fun c => snd c < snd (max_from best l)) before
    /\ Forall (fun c => snd c <= snd (max_from best l)) after.
Proof.
  induction l as [|x l IH]; intros best; simpl.
  - exists [], []. repeat split; constructor.
  - destruct (Nat.ltb_spec (snd best) (snd x)) as [Hlt|Hge].
    + destruct (IH x) as (b & a & E & Hb & Ha).
      exists (best :: b), a. rewrite E. repeat split; auto.
      constructor; auto.
      assert (Hx : snd x <= snd (max_from x l)).
      { assert (Hin : In x (b ++ max_from x l :: a)%list)
          by (rewrite <- E; now left).
        apply in_app_or in Hin as [Hin|[Heq|Hin]].
        - rewrite Forall_forall in Hb. specialize (Hb _ Hin). lia.
        - rewrite Heq. lia.
        - rewrite Forall_forall in Ha. now apply Ha. }
      lia.
    + destruct (IH best) as (b & a & E & Hb & Ha).
      destruct b as [|b0 b]; simpl in E.
      * injection E as E1 E2. subst a.
        exists [], (x :: l). rewrite <- E1 in Ha |- *. simpl.
        repeat split; auto.
      * injection E as E1 E2. subst b0. exists (best :: x :: b), a.
        inversion Hb as [|? ? Hb0 Hb']; subst.
        simpl. split; [now do 2 f_equal|]. split; auto.
        constructor; auto. constructor; auto. lia.
Qed.





(** ** The table built by [translation_dict] *)

Lemma dict_get_set {V : Type} (d : dict V) (k k' : string) (v : V) :
  dict_get (dict_set d k v) k' = if k' =? k then Some v else dict_get d k'.
Proof.
  induction d as [|[k0 v0] d IH]; simpl.
  - rewrite (String.eqb_sym k k'). reflexivity.
  - destruct (String.eqb_spec k0 k) as [->|Hk0]; simpl.
    + destruct (String.eqb_spec k k') as [->|Hkk'].
      * now rewrite String.eqb_refl.
      * destruct (String.eqb_spec k' k); congruence.
    + rewrite IH. destruct (String.eqb_spec k0 k') as [->|Hk0'].
      * destruct (String.eqb_spec k' k); congruence.
      * reflexivity.
Qed.

Lemma dict_get_In_keys {V : Type} (d : dict V) (k : string) :
  In k (dict_keys d) <-> dict_get d k <> None.
Proof.
  induction d as [|[k0 v0] d IH]; simpl.
  - tauto.
  - destruct (String.eqb_spec k0 k) as [->|Hk0].
    + split; [discriminate | auto].
    + rewrite <- IH. split; [intros [?|?]; congruence | auto].
Qed.

Lemma dict_keys_set_NoDup {V : Type} (d : dict V) (k : string) (v : V) :
  NoDup (dict_keys d) -> NoDup (dict_keys (dict_set d k v)).
Proof.
  induction d as [|[k0 v0] d IH]; simpl; intros Hnd.
  - constructor; [tauto | constructor].
  - inversion Hnd as [|? ? Hnot Hnd']; subst.
    destruct (String.eqb_spec k0 k) as [->|Hk0]; simpl.
    + now constructor.
    + constructor; [|now apply IH].
      rewrite dict_get_In_keys, dict_get_set.
      destruct (String.eqb_spec k0 k); [congruence|].
      now rewrite <- dict_get_In_keys.
Qed.

Lemma dict_get_append (d : table) (key k : string) (v : string * nat) :
  dict_get (dict_append d key v) k =
  if k =? key then option_map (fun l => (l ++ [v])%list) (dict_get d k)
  else dict_get d k.
Proof.
  induction d as [|[k0 l0] d IH]; simpl.
  - now destruct (k =? key).
  - destruct (String.eqb_spec k0 key) as [->|Hk0]; simpl.
    + destruct (String.eqb_spec key k) as [->|Hkk].
      * now rewrite String.eqb_refl.
      * destruct (String.eqb_spec k key); congruence.
    + rewrite IH. destruct (String.eqb_spec k0 k) as [->|Hk0k].
      * destruct (String.eqb_spec k key); congruence.
      * reflexivity.
Qed.

Lemma dict_keys_append (d : table) (key : string) (v : string * nat) :
  dict_keys (dict_append d key v) = dict_keys d.
Proof.
  induction d as [|[k0 l0] d IH]; simpl; [reflexivity|].
  destruct (k0 =? key); simpl; [reflexivity | now rewrite IH].
Qed.

Lemma init_key_Ok (d : table) (item : word_pair) :
  init_key d item = Ok (dict_set d (key_of item) []).
Proof. now destruct item. Qed.

Lemma fill_key_Ok (c : Counter) (key : string) (d : table) (item : word_pair) :
  exists d', fill_key c key d item = Ok d'
    /\ dict_keys d' = dict_keys d
    /\ forall k, dict_get d' k =
         if k =? key
         then option_map (fun l => (l ++ entry_of c key item)%list) (dict_get d k)
         else dict_get d k.
Proof.
  assert (Hid : forall k, dict_get d k =
            if k =? key then option_map (fun l => (l ++ [])%list) (dict_get d k)
            else dict_get d k).
  { intros k. destruct (k =? key); [|reflexivity].
    destruct (dict_get d k); simpl; [now rewrite app_nil_r | reflexivity]. }
  destruct item as [|a b]; unfold fill_key; simpl.
  - exists d. destruct (key =? nl); simpl; auto.
  - destruct (key =? a); simpl.
    + eexists. split; [reflexivity|]. split.
      * apply dict_keys_append.
      * intros k. apply dict_get_append.
    + exists d. auto.
Qed.

Lemma fill_items_Ok (c : Counter) (key : string) (items : list word_pair) :
  forall d, exists d', foldM (fill_key c key) items d = Ok d'
    /\ dict_keys d' = dict_keys d
    /\ forall k, dict_get d' k =
         if k =? key
         then option_map (fun l => (l ++ candidates c key items)%list)
                         (dict_get d k)
         else dict_get d k.
Proof.
  induction items as [|item items IH]; intros d; simpl.
  - exists d. repeat split; auto. intros k.
    destruct (k =? key); [|reflexivity].
    destruct (dict_get d k); simpl; [now rewrite app_nil_r | reflexivity].
  - destruct (fill_key_Ok c key d item) as (d1 & -> & Hk1 & Hg1). simpl.
    destruct (IH d1) as (d2 & -> & Hk2 & Hg2).
    exists d2. split; [reflexivity|]. split; [congruence|].
    intros k. rewrite Hg2, Hg1. destruct (k =? key); [|reflexivity].
    destruct (dict_get d k); simpl; [now rewrite app_assoc | reflexivity].
Qed.

Lemma fill_keys_Ok (c : Counter) (items : list word_pair) (keys : list string) :
  NoDup keys ->
  forall d, exists d',
    foldM (fun d key => foldM (fill_key c key) items d) keys d = Ok d'
    /\ dict_keys d' = dict_keys d
    /\ forall k, dict_get d' k =
         option_map
           (fun l => (l ++ if in_dec string_dec k keys
                           then candidates c k items else [])%list)
           (dict_get d k).
Proof.
  induction 1 as [|key keys Hnot Hnd IH]; intros d; simpl.
  - exists d. repeat split; auto. intros k.
    destruct (dict_get d k); simpl; [now rewrite app_nil_r | reflexivity].
  - destruct (fill_items_Ok c key items d) as (d1 & -> & Hk1 & Hg1). simpl.
    destruct (IH d1) as (d2 & -> & Hk2 & Hg2).
    exists d2. split; [reflexivity|]. split; [congruence|].
    intros k. rewrite Hg2, Hg1.
    destruct (string_dec key k) as [<-|Hne].
    + rewrite String.eqb_refl.
      destruct (in_dec string_dec key keys) as [Hin|_]; [contradiction|].
      destruct (dict_get d key); simpl; [now rewrite app_nil_r | reflexivity].
    + destruct (String.eqb_spec k key) as [->|_]; [congruence|].
      destruct (in_dec string_dec k keys); reflexivity.
Qed.

Lemma init_keys_Ok (items : list word_pair) : forall d,
  NoDup (dict_keys d) ->
  exists d', foldM init_key items d = Ok d'
    /\ NoDup (dict_keys d')
    /\ forall k, dict_get d' k =
         if in_dec string_dec k (map key_of items) then Some []
         else dict_get d k.
Proof.
  induction items as [|item items IH]; intros d Hnd; simpl.
  - exists d. auto.
  - rewrite init_key_Ok. simpl.
    destruct (IH (dict_set d (key_of item) [])) as (d' & -> & Hnd' & Hg).
    { now apply dict_keys_set_NoDup. }
    exists d'. repeat split; auto. intros k. rewrite Hg, dict_get_set.
    destruct (in_dec string_dec k (map key_of items)) as [Hin|Hnin].
    + now destruct (string_dec (key_of item) k).
    + destruct (string_dec (key_of item) k) as [->|Hne].
      * now rewrite String.eqb_refl.
      * destruct (String.eqb_spec k (key_of item)); congruence.
Qed.

(** The table as a function of the counter: the keys are the first
    components of the counted items, and the entry of a key lists, in the
    order of the counter, the normalisations counted for it. *)
Lemma translation_dict_spec (tokens_train : list string) (c : Counter) :
  get_norm_freq tokens_train = Ok c ->
  exists d, translation_dict tokens_train = Ok d
    /\ forall k, dict_get d k =
         if in_dec string_dec k (map key_of (map fst c))
         then Some (candidates c k (map fst c)) else None.
Proof.
  intros Hc. unfold translation_dict. rewrite Hc. simpl.
  destruct (init_keys_Ok (map fst c) []) as (d0 & -> & Hnd & Hg0);
    [constructor|]. simpl.
  destruct (fill_keys_Ok c (map fst c) (dict_keys d0) Hnd d0)
    as (d1 & -> & Hk & Hg1).
  exists d1. split; [reflexivity|]. intros k. rewrite Hg1, Hg0.
  destruct (in_dec string_dec k (map key_of (map fst c))) as [Hin|Hnin];
    simpl; [|reflexivity].
  destruct (in_dec string_dec k (dict_keys d0)) as [_|Hn]; [reflexivity|].
  exfalso. apply Hn. rewrite dict_get_In_keys, Hg0.
  destruct (in_dec string_dec k (map key_of (map fst c)));
    [discriminate | contradiction].
Qed.

Lemma candidates_nonempty (c : Counter) (k : string) (items : list word_pair) :
  In k (map key_of items) -> k <> nl -> candidates c k items <> [].
Proof.
  intros Hin Hk Hnil. apply in_map_iff in Hin as (item & Hkey & Hin).
  destruct item as [|a b]; simpl in Hkey; [congruence|]. subst a.
  assert (H : In (b, counter_get c (Pair k b)) (candidates c k items)).
  { unfold candidates. apply in_flat_map. exists (Pair k b). split; auto.
    simpl. rewrite String.eqb_refl. now left. }
  rewrite Hnil in H. contradiction.
Qed.

Lemma index_Ok {A : Type} (l : list A) (i : nat) :
  i < length l -> exists x, index l i = Ok x /\ nth_error l i = Some x.
Proof.
  intros Hi. unfold index. destruct (nth_error l i) as [x|] eqn:E; eauto.
  apply nth_error_None in E. lia.
Qed.

Lemma get_norm_freq_total (tokens_train : list string) :
  forallb train_line_ok tokens_train = true ->
  exists c, get_norm_freq tokens_train = Ok c.
Proof.
  intros Hok. unfold get_norm_freq, get_tuples.
  destruct (mapM_total get_tuple tokens_train) as (l & ->); [|simpl; eauto].
  rewrite forallb_forall in Hok. apply Forall_forall. intros line Hin.
  specialize (Hok _ Hin). unfold train_line_ok in Hok. unfold get_tuple.
  destruct (line =? nl); [eauto|]. cbn [orb] in Hok.
  apply Nat.leb_le in Hok.
  destruct (index_Ok (split TAB line) 0) as (a & -> & _); [lia|].
  destruct (index_Ok (split TAB line) 1) as (b & -> & _); [lia|].
  simpl. eauto.
Qed.

(** Every key of the table other than the string of an empty line has a
    candidate. *)
Lemma translation_dict_nonempty (tokens_train : list string) (d : table)
    (k : string) :
  translation_dict tokens_train = Ok d ->
  dict_get d k = Some [] -> k = nl.
Proof.
  intros Hd Hget.
  destruct (get_norm_freq tokens_train) as [c|e] eqn:Hc;
    [|unfold translation_dict in Hd; rewrite Hc in Hd; discriminate].
  destruct (translation_dict_spec _ _ Hc) as (d' & Hd' & Hg).
  assert (d' = d) by congruence. subst d'.
  rewrite Hg in Hget.
  destruct (in_dec string_dec k (map key_of (map fst c))) as [Hin|];
    [|discriminate].
  destruct (string_dec k nl) as [|Hne]; [assumption|].
  injection Hget as Hnil. now apply candidates_nonempty in Hnil.
Qed.

Lemma predict_total (tokens_train : list string) (d : table) (ns : string) :
  translation_dict tokens_train = Ok d -> ns <> nl ->
  exists sp, predict d ns = Ok sp.
Proof.
  intros Hd Hns. unfold predict.
  destruct (dict_get d ns) as [l|] eqn:Hget; [|eauto].
  destruct l as [|x l].
  - apply (translation_dict_nonempty _ _ _ Hd) in Hget. contradiction.
  - destruct (length (x :: l) =? 1)%nat; simpl; eauto.
Qed.

Lemma normalize_line_total (tokens_train : list string) (d : table)
    (line : string) :
  translation_dict tokens_train = Ok d -> line_ok line = true ->
  exists out, normalize_line d line = Ok out.
Proof.
  intros Hd Hok. unfold normalize_line, line_ok in *.
  destruct (line =? nl); [eauto|]. cbn [orb] in Hok.
  apply andb_prop in Hok as (Hlen & Hhd).
  apply Nat.leb_le in Hlen. apply negb_true_iff, String.eqb_neq in Hhd.
  unfold normalize_record.
  destruct (split TAB line) as [|ns [|std [|pos rest]]] eqn:E;
    simpl in Hlen; try lia.
  simpl in Hhd. unfold index; simpl.
  destruct (predict_total _ _ ns Hd Hhd) as (sp & ->). simpl. eauto.
Qed.

(** C7: on well-formed training and input lines [normalize] returns, and
    it has written once per input line; an empty line is written as it
    is, at its own position. *)
Theorem normalize_preserves_count (tokens_train tokens_dev_or_test : list string) :
  forallb train_line_ok tokens_train = true ->
  forallb line_ok tokens_dev_or_test = true ->
  exists outs,
    normalize tokens_train tokens_dev_or_test = Ok outs
    /\ length outs = length tokens_dev_or_test
    /\ forall k, nth_error tokens_dev_or_test k = Some nl ->
                 nth_error outs k = Some nl.
Proof.
  intros Htrain Hlines.
  destruct (get_norm_freq_total _ Htrain) as (c & Hc).
  destruct (translation_dict_spec _ _ Hc) as (d & Hd & _).
  unfold normalize. rewrite Hd. simpl.
  destruct (mapM_total (normalize_line d) tokens_dev_or_test) as (outs & Houts).
  { rewrite forallb_forall in Hlines. apply Forall_forall. intros line Hin.
    eapply normalize_line_total; eauto. }
  exists outs. split; [assumption|]. split; [eapply mapM_length; eauto|].
  intros k Hk. destruct (mapM_nth _ _ _ Houts _ _ Hk) as (y & Hy & Hnth).
  unfold normalize_line in Hy. rewrite String.eqb_refl in Hy.
  now injection Hy as <-.
Qed.

(** Three lines and an empty line after the training lines of the
    specification: four strings are written. *)
Lemma normalize_preserves_count_witness :
  exists outs,
    normalize
      [ "hasses" ++ tab ++ "hasse es" ++ tab ++ "VVFIN+PPER" ++ nl;
        nl;
        "viiu" ++ tab ++ "viel" ++ tab ++ "PIS" ++ nl;
        "viiu" ++ tab ++ "viele" ++ tab ++ "PIS" ++ nl ]
      [ "viiu" ++ tab ++ "viele" ++ tab ++ "PIS" ++ nl;
        nl;
        "zz" ++ tab ++ "ganz" ++ tab ++ "ADV" ++ nl;
        "hasses" ++ tab ++ "hasse es" ++ tab ++ "VVFIN+PPER" ++ nl ]
    = Ok outs
    /\ length outs = 4
    /\ nth_error outs 1 = Some nl.
Proof.
  destruct (normalize_preserves_count
      [ "hasses" ++ tab ++ "hasse es" ++ tab ++ "VVFIN+PPER" ++ nl;
        nl;
        "viiu" ++ tab ++ "viel" ++ tab ++ "PIS" ++ nl;
        "viiu" ++ tab ++ "viele" ++ tab ++ "PIS" ++ nl ]
      [ "viiu" ++ tab ++ "viele" ++ tab ++ "PIS" ++ nl;
        nl;
        "zz" ++ tab ++ "ganz" ++ tab ++ "ADV" ++ nl;
        "hasses" ++ tab ++ "hasse es" ++ tab ++ "VVFIN+PPER" ++ nl ]
      eq_refl eq_refl) as (outs & H & Hlen & Hnl).
  exists outs. split; [exact H|]. split; [exact Hlen|].
  apply (Hnl 1). reflexivity.
Defined.

(** C4 at the training lines [a<TAB>b<TAB>c<LF>] and [<LF>]: the empty
    line becomes a key of the table, and its entry is the empty list. *)
Theorem translation_dict_empty_line_key :
  translation_dict ["a" ++ tab ++ "b" ++ tab ++ "c" ++ nl; nl]
  = Ok [("a", [("b", 1)]); (nl, [])].
Proof. reflexivity. Qed.

(** ** The counter and the entries of the table *)

Lemma word_pair_eqb_spec (a b : word_pair) : reflect (a = b) (word_pair_eqb a b).
Proof.
  destruct a as [|a0 a1], b as [|b0 b1]; simpl; try (constructor; congruence).
  destruct (String.eqb_spec a0 b0), (String.eqb_spec a1 b1); simpl;
    constructor; congruence.
Qed.

Lemma counter_add_keys (c : Counter) (x : word_pair) :
  map fst (counter_add c x) = first_seen_add (map fst c) x.
Proof.
  unfold first_seen_add. induction c as [|[y k] c IH]; simpl; [reflexivity|].
  destruct (word_pair_eqb y x); simpl; [reflexivity|].
  rewrite IH. now destruct (existsb _ (map fst c)).
Qed.

Lemma counter_of_keys (l : list word_pair) :
  map fst (counter_of l) = first_seen l.
Proof.
  unfold counter_of, first_seen.
  change (@nil word_pair) with (map fst (@nil (word_pair * nat))).
  generalize (@nil (word_pair * nat)).
  induction l as [|x l IH]; intros c; simpl; [reflexivity|].
  now rewrite IH, counter_add_keys.
Qed.

Lemma first_seen_add_NoDup (seen : list word_pair) (x : word_pair) :
  NoDup seen -> NoDup (first_seen_add seen x).
Proof.
  intros Hnd. unfold first_seen_add.
  destruct (existsb _ seen) eqn:E; [assumption|].
  apply NoDup_app; [assumption | constructor; [tauto | constructor] |].
  intros y Hy [Hxy|[]]. subst y.
  assert (H : existsb (fun z => word_pair_eqb z x) seen = true).
  { apply existsb_exists. exists x. split; [assumption|].
    now destruct (word_pair_eqb_spec x x). }
  congruence.
Qed.

Lemma first_seen_NoDup (l : list word_pair) : NoDup (first_seen l).
Proof.
  unfold first_seen. assert (H : NoDup (@nil word_pair)) by constructor.
  revert H. generalize (@nil word_pair).
  induction l as [|x l IH]; intros seen H; simpl; [assumption|].
  now apply IH, first_seen_add_NoDup.
Qed.

(** The counts of the tuples of [key] in a counter, summed. *)
Lemma weight_counter_add (key : string) (c : Counter) (x : word_pair) :
  list_sum (map snd (filter (fun e => is_pair_of key (fst e)) (counter_add c x)))
  = list_sum (map snd (filter (fun e => is_pair_of key (fst e)) c))
    + (if is_pair_of key x then 1 else 0).
Proof.
  induction c as [|[y k] c IH]; simpl.
  - destruct (is_pair_of key x); reflexivity.
  - destruct (word_pair_eqb_spec y x) as [->|Hne]; simpl.
    + destruct (is_pair_of key x); simpl; lia.
    + destruct (is_pair_of key y); simpl; rewrite IH; lia.
Qed.

Lemma weight_counter_of (key : string) (l : list word_pair) :
  list_sum (map snd (filter (fun e => is_pair_of key (fst e)) (counter_of l)))
  = occurrences key l.
Proof.
  unfold counter_of, occurrences.
  assert (H : forall c,
    list_sum (map snd (filter (fun e => is_pair_of key (fst e))
                              (fold_left counter_add l c)))
    = list_sum (map snd (filter (fun e => is_pair_of key (fst e)) c))
      + length (filter (is_pair_of key) l)).
  { induction l as [|x l IH]; intros c; simpl; [lia|].
    rewrite IH, weight_counter_add.
    destruct (is_pair_of key x); simpl; lia. }
  now rewrite H.
Qed.

Lemma counter_get_In (c : Counter) (x : word_pair) (k : nat) :
  NoDup (map fst c) -> In (x, k) c -> counter_get c x = k.
Proof.
  induction c as [|[y m] c IH]; simpl; intros Hnd Hin; [contradiction|].
  inversion Hnd as [|? ? Hnot Hnd']; subst.
  destruct (word_pair_eqb_spec y x) as [->|Hne].
  - destruct Hin as [E|Hin]; [congruence|].
    exfalso. apply Hnot. apply in_map_iff. now exists (x, k).
  - destruct Hin as [E|Hin]; [congruence | now apply IH].
Qed.

Lemma candidates_normalizations (c : Counter) (key : string)
    (items : list word_pair) :
  map fst (candidates c key items) = normalizations key items.
Proof.
  unfold candidates, normalizations.
  induction items as [|[|a b] items IH]; simpl; [reflexivity | assumption |].
  rewrite map_app, IH. now destruct (key =? a).
Qed.

Lemma candidates_weight (c0 c : Counter) (key : string) :
  (forall x k, In (x, k) c -> counter_get c0 x = k) ->
  list_sum (map snd (candidates c0 key (map fst c)))
  = list_sum (map snd (filter (fun e => is_pair_of key (fst e)) c)).
Proof.
  unfold candidates. induction c as [|[x k] c IH]; intros Hget; simpl;
    [reflexivity|].
  rewrite map_app, list_sum_app, IH by (intros; apply Hget; now right).
  destruct x as [|a b]; simpl; [reflexivity|].
  destruct (key =? a); simpl; [|reflexivity].
  rewrite (Hget (Pair a b) k) by now left. lia.
Qed.

Lemma normalizations_NoDup (key : string) (items : list word_pair) :
  NoDup items -> NoDup (normalizations key items).
Proof.
  unfold normalizations.
  induction 1 as [|[|a b] items Hnot Hnd IH]; simpl;
    [constructor | assumption |].
  destruct (String.eqb_spec key a) as [<-|Hne]; simpl; [|assumption].
  constructor; [|assumption].
  intros Hin. apply Hnot. apply in_flat_map in Hin as ([|a' b'] & Hin & Hb);
    [contradiction|].
  destruct (String.eqb_spec key a') as [<-|]; [|contradiction].
  destruct Hb as [<-|[]]. assumption.
Qed.

(** X27: the part of the invariant of the table that the code keeps.  For the
    word pairs [l] of the training lines and every key of the table: the
    candidates are the normalisations recorded for the key, in the order
    in which their pairs are first seen; no normalisation has two entries;
    the counts add up to the number of lines of that non-standard form;
    and the key of a tuple has a candidate. *)
Theorem translation_dict_entries (tokens_train : list string)
    (l : list word_pair) (d : table) (key : string)
    (list_tuples : list (string * nat)) :
  get_tuples tokens_train = Ok l ->
  translation_dict tokens_train = Ok d ->
  dict_get d key = Some list_tuples ->
  map fst list_tuples = normalizations key (first_seen l)
  /\ NoDup (map fst list_tuples)
  /\ list_sum (map snd list_tuples) = occurrences key l
  /\ (key <> nl -> list_tuples <> []).
Proof.
  intros Hl Hd Hget.
  assert (Hc : get_norm_freq tokens_train = Ok (counter_of l))
    by (unfold get_norm_freq; now rewrite Hl).
  destruct (translation_dict_spec _ _ Hc) as (d' & Hd' & Hg).
  assert (d' = d) by congruence. subst d'.
  rewrite Hg in Hget.
  destruct (in_dec string_dec key (map key_of (map fst (counter_of l))))
    as [Hin|]; [|discriminate].
  injection Hget as <-.
  rewrite candidates_normalizations.
  split; [now rewrite counter_of_keys|].
  split; [rewrite counter_of_keys; apply normalizations_NoDup, first_seen_NoDup|].
  split.
  - rewrite candidates_weight, weight_counter_of; [reflexivity|].
    intros x k. apply counter_get_In.
    rewrite counter_of_keys. apply first_seen_NoDup.
  - intros Hne. now apply candidates_nonempty.
Qed.

(** The table of the four training pairs of the specification. *)
Lemma translation_dict_entries_witness :
  let tokens_train :=
    [ "hasses" ++ tab ++ "hasse es" ++ tab ++ "VVFIN+PPER" ++ nl;
      "hasses" ++ tab ++ "hasse es" ++ tab ++ "VVFIN+PPER" ++ nl;
      "viiu" ++ tab ++ "viel" ++ tab ++ "PIS" ++ nl;
      "viiu" ++ tab ++ "viele" ++ tab ++ "PIS" ++ nl ] in
  translation_dict tokens_train
  = Ok [("hasses", [("hasse es", 2)]); ("viiu", [("viel", 1); ("viele", 1)])]
  /\ list_sum (map snd [("viel", 1); ("viele", 1)]) = 2.
Proof.
  intros tokens_train. split; [reflexivity|].
  refine (proj1 (proj2 (proj2
    (translation_dict_entries tokens_train
       [Pair "hasses" "hasse es"; Pair "hasses" "hasse es";
        Pair "viiu" "viel"; Pair "viiu" "viele"]
       [("hasses", [("hasse es", 2)]); ("viiu", [("viel", 1); ("viele", 1)])]
       "viiu" [("viel", 1); ("viele", 1)] _ _ _)))); reflexivity.
Defined.

(** ** The aligner, one reference token at a time *)

Lemma tok_at_cases (predicted_POS : list tagged) (i : nat) :
  tok_at predicted_POS i = Raise IndexError
  \/ exists p, tok_at predicted_POS i = Ok p.
Proof.
  unfold tok_at, index.
  destruct (nth_error predicted_POS i) as [[w t|]|]; simpl; eauto.
Qed.

Lemma tok_at_middle (pre post : list tagged) (ents : list (string * string))
    (k : nat) (p : string * string) :
  nth_error ents k = Some p ->
  tok_at (pre ++ map tok ents ++ post) (length pre + k) = Ok p.
Proof.
  intros Hk. unfold tok_at, index.
  rewrite nth_error_app2 by lia.
  replace (length pre + k - length pre) with k by lia.
  rewrite nth_error_app1
    by (rewrite length_map; apply nth_error_Some; congruence).
  rewrite nth_error_map, Hk. simpl. now destruct p.
Qed.

Lemma foldM_app {A S : Type} (f : S -> A -> result S) (l1 l2 : list A) (s : S) :
  foldM f (l1 ++ l2) s = bind (foldM f l1 s) (foldM f l2).
Proof.
  revert s; induction l1 as [|x l1 IH]; intros s; simpl; [reflexivity|].
  destruct (f s x); simpl; auto.
Qed.





(** C10: a reference token of five or more words leaves the cursor and
    the list as they are and raises nothing; the tokens after it are
    aligned from the same cursor, as if the token were not in the list,
    and so is the result of [correct_pos]. *)
Theorem align_step_long_token_dropped (word : string) :
  5 <= words word ->
  (forall predicted_POS i correct_POS,
     align_step predicted_POS (i, correct_POS) word = Ok (i, correct_POS))
  /\ (forall predicted_POS i correct_POS rest,
       foldM (align_step predicted_POS) (word :: rest) (i, correct_POS)
       = foldM (align_step predicted_POS) rest (i, correct_POS))
  /\ (forall nlp text before after,
       correct_pos nlp text (before ++ word :: after)
       = correct_pos nlp text (before ++ after)).
Proof.
  intros Hw.
  assert (Hstep : forall predicted_POS st, align_step predicted_POS st word = Ok st).
  { intros predicted_POS [i correct_POS]. unfold align_step.
    unfold words in Hw.
    destruct (length (split_ws word)) as [|[|[|[|[|m]]]]]; try lia.
    reflexivity. }
  split; [intros; apply Hstep|].
  split; [intros; cbn [foldM]; now rewrite Hstep|].
  intros nlp text before after. unfold correct_pos, align.
  rewrite !foldM_app.
  destruct (foldM (align_step (predict_pos nlp text)) before (0, []))
    as [st|e]; cbn [bind foldM]; [|reflexivity].
  now rewrite Hstep.
Qed.

(** A five-word token between two one-word tokens: its position gets no
    tag, and the token after it gets the tag that the tagger gave to the
    first word of the dropped token. *)
Lemma align_step_long_token_dropped_witness :
  (forall predicted_POS i correct_POS,
     align_step predicted_POS (i, correct_POS) "a b c d e" = Ok (i, correct_POS))
  /\ align [Tok "x" "TX"; Tok "a" "TA"; Tok "b" "TB"; Tok "c" "TC";
            Tok "d" "TD"; Tok "e" "TE"; Tok "y" "TY"]
           ["x"; "a b c d e"; "y"]
     = Ok (2, [APair "x" "TX"; APair "a" "TA"]).
Proof.
  split.
  - apply (align_step_long_token_dropped "a b c d e"). vm_compute. lia.
  - reflexivity.
Defined.

(** ** The aligner over a whole token list *)

Ltac read_tok predicted_POS i :=
  destruct (tok_at_cases predicted_POS i) as [-> | [? ->]]; cbn [bind];
  [left; reflexivity|].

Lemma align_step_cases (predicted_POS : list tagged) (i : nat)
    (correct_POS : list aligned) (word : string) :
  words word <= 4 ->
  align_step predicted_POS (i, correct_POS) word = Raise IndexError
  \/ exists j e,
       align_step predicted_POS (i, correct_POS) word
       = Ok (j, (correct_POS ++ [e])%list)
       /\ entry_for word e.
Proof.
  intros Hw. unfold align_step, entry_for, words in *.
  destruct (length (split_ws word)) as [|[|[|[|[|m]]]]]; try lia.
  - right. do 2 eexists. split; [reflexivity|].
    split; [reflexivity | discriminate].
  - destruct (dict_get d word) as [[tag c]|].
    + right. do 2 eexists. split; [reflexivity|].
      split; [discriminate | intros tag' c' _ H; congruence].
    + read_tok predicted_POS i.
      right. do 2 eexists. split; [reflexivity|]. split; discriminate.
  - read_tok predicted_POS i. read_tok predicted_POS (i + 1).
    right. do 2 eexists. split; [reflexivity|]. split; discriminate.
  - read_tok predicted_POS i. read_tok predicted_POS (i + 1).
    read_tok predicted_POS (i + 2).
    right. do 2 eexists. split; [reflexivity|]. split; discriminate.
  - read_tok predicted_POS i. read_tok predicted_POS (i + 1).
    read_tok predicted_POS (i + 2). read_tok predicted_POS (i + 3).
    right. do 2 eexists. split; [reflexivity|]. split; discriminate.
Qed.

Lemma align_from_cases (predicted_POS : list tagged) (orig_tokens : list string) :
  Forall (fun word => words word <= 4) orig_tokens ->
  forall i correct_POS,
    foldM (align_step predicted_POS) orig_tokens (i, correct_POS)
    = Raise IndexError
    \/ exists j es,
         foldM (align_step predicted_POS) orig_tokens (i, correct_POS)
         = Ok (j, (correct_POS ++ es)%list)
         /\ Forall2 entry_for orig_tokens es.
Proof.
  induction 1 as [|word rest Hw _ IH]; intros i correct_POS; cbn [foldM].
  - right. exists i, []. rewrite app_nil_r. split; [reflexivity | constructor].
  - destruct (align_step_cases predicted_POS i correct_POS word Hw)
      as [-> | (j & e & -> & He)]; cbn [bind]; [now left|].
    destruct (IH j (correct_POS ++ [e])%list) as [-> | (j' & es & -> & Hes)];
      [now left|].
    right. exists j', (e :: es). rewrite <- app_assoc. split; [reflexivity|].
    now constructor.
Qed.

Lemma extract_sentences_appends (text lines : list string) :
  exists sentences lines',
    extract_sentences text lines = (sentences, (text ++ [nl])%list, lines').
Proof.
  unfold extract_sentences.
  destruct (fold_left extract_step _ _) as [[sentence sentences] lines'].
  eauto.
Qed.

Lemma Forall2_nth_error {A B : Type} (R : A -> B -> Prop) (l : list A)
    (l' : list B) :
  Forall2 R l l' ->
  forall k x, nth_error l k = Some x ->
  exists y, nth_error l' k = Some y /\ R x y.
Proof.
  induction 1 as [|x0 y0 l l' HR _ IH]; intros k x Hk.
  - destruct k; discriminate.
  - destruct k as [|k]; simpl in *.
    + injection Hk as <-. eauto.
    + now apply IH.
Qed.

Lemma correct_pos_cases (nlp : string -> list (string * string))
    (text orig_tokens : list string) :
  Forall (fun word => words word <= 4) orig_tokens ->
  correct_pos nlp text orig_tokens = Raise IndexError
  \/ exists i correct_POS,
       align (predict_pos nlp text) orig_tokens = Ok (i, correct_POS)
       /\ Forall2 entry_for orig_tokens correct_POS
       /\ correct_pos nlp text orig_tokens
          = Ok (map pos_only (removelast correct_POS)).
Proof.
  intros Hw. unfold correct_pos, align.
  destruct (align_from_cases (predict_pos nlp text) _ Hw 0 [])
    as [-> | (j & es & -> & Hes)]; [now left|].
  right. cbn [bind snd app]. exists j, es. auto.
Qed.

Lemma tag_column_cases (nlp : string -> list (string * string))
    (text lines : list string) :
  Forall (fun word => words word <= 4) text ->
  tag_column nlp text lines = Raise IndexError
  \/ exists es lines',
       tag_column nlp text lines = Ok (map pos_only es, lines')
       /\ Forall2 entry_for text es.
Proof.
  intros Hw. unfold tag_column.
  destruct (extract_sentences_appends text lines) as (sentences & lines' & ->).
  assert (Hw' : Forall (fun word => words word <= 4) (text ++ [nl])%list).
  { apply Forall_app. split; [assumption|].
    constructor; [vm_compute; lia | constructor]. }
  destruct (correct_pos_cases nlp sentences _ Hw')
    as [-> | (j & es & _ & Hes & ->)]; [now left|].
  right. cbn [bind].
  apply Forall2_app_inv_l in Hes as (es1 & es2 & Hes1 & Hes2 & ->).
  inversion Hes2 as [|? e ? ? _ Hnil]; subst. inversion Hnil; subst.
  rewrite removelast_last. eauto.
Qed.

(** C1, as the code has it: when every reference token has at most four
    words, the two statements of [main] for a column either raise
    [IndexError] or return one tag per reference token: as many tags as
    tokens, ['\n'] at the position of every empty token, and the tag of
    the table at the position of every form of the table [d]. *)
Theorem tag_column_one_tag_per_token (nlp : string -> list (string * string))
    (text lines : list string) :
  Forall (fun word => words word <= 4) text ->
  tag_column nlp text lines = Raise IndexError
  \/ exists POS lines',
       tag_column nlp text lines = Ok (POS, lines')
       /\ length POS = length text
       /\ (forall k word,
             nth_error text k = Some word -> words word = 0 ->
             nth_error POS k = Some nl)
       /\ (forall k word tag c,
             nth_error text k = Some word -> words word = 1 ->
             dict_get d word = Some (tag, c) ->
             nth_error POS k = Some tag).
Proof.
  intros Hw.
  destruct (tag_column_cases nlp text lines Hw)
    as [-> | (es & lines' & -> & Hes)]; [now left|].
  right. exists (map pos_only es), lines'. split; [reflexivity|].
  split; [rewrite length_map; symmetry; eapply Forall2_length; eauto|].
  split.
  - intros k word Hk H0.
    destruct (Forall2_nth_error _ _ _ Hes _ _ Hk) as (e' & Hk' & He' & _).
    rewrite nth_error_map, Hk', (He' H0). reflexivity.
  - intros k word tag c Hk H1 Hd.
    destruct (Forall2_nth_error _ _ _ Hes _ _ Hk) as (e' & Hk' & _ & He').
    rewrite nth_error_map, Hk', (He' _ _ H1 Hd). reflexivity.
Qed.

(** A sentence of three tokens, an empty token, and a form of the table. *)
Lemma tag_column_one_tag_per_token_witness :
  exists POS lines',
    tag_column word_tagger ["a"; "b c"; "d"; nl; "!!"]
               [line_of "a"; line_of "b c"; line_of "d"; nl; line_of "!!"]
    = Ok (POS, lines')
    /\ length POS = 5
    /\ nth_error POS 3 = Some nl
    /\ nth_error POS 4 = Some "$.".
Proof.
  assert (Hw : Forall (fun word => words word <= 4) ["a"; "b c"; "d"; nl; "!!"]).
  { repeat (constructor; [vm_compute; lia|]). constructor. }
  destruct (tag_column_one_tag_per_token word_tagger
              ["a"; "b c"; "d"; nl; "!!"]
              [line_of "a"; line_of "b c"; line_of "d"; nl; line_of "!!"] Hw)
    as [H | (POS & lines' & H)].
  - vm_compute in H. discriminate.
  - destruct H as (H & Hlen & Hnl & Htab).
    exists POS, lines'. split; [assumption|]. split; [assumption|]. split.
    + apply (Hnl 3 nl); reflexivity.
    + apply (Htab 4 "!!" "$." 2); reflexivity.
Defined.

(** C1 as stated fails: with a five-word token among three reference
    tokens, two tags are returned, and the second one belongs to a word of
    the dropped token. *)
Lemma tag_column_drops_long_token :
  let nlp := fun sent => map (fun w => (w, "T" ++ w)) (split_ws sent) in
  let text := ["x"; "a b c d e"; "y"] in
  let lines := [line_of "x"; line_of "a b c d e"; line_of "y"] in
  tag_column nlp text lines = Ok (["Tx"; "Ta"], (lines ++ [nl; nl; nl; nl])%list)
  /\ length ["Tx"; "Ta"] <> length text.
Proof.
  split; [vm_compute; reflexivity | simpl; lia].
Qed.




(** ** The accuracy calculation *)

Lemma count_line_Ok (t : tally) (line : string) :
  8 <= length (split TAB line) ->
  exists t', count_line t line = Ok t' /\ n t' = n t + 1.
Proof.
  intros Hlen. unfold count_line.
  destruct (index_Ok (split TAB line) 4) as (gs & -> & _); [lia|].
  destruct (index_Ok (split TAB line) 5) as (lb & -> & _); [lia|].
  destruct (index_Ok (split TAB line) 6) as (ub & -> & _); [lia|].
  destruct (index_Ok (split TAB line) 7) as (b & -> & _); [lia|].
  cbn [bind]. eexists. split; reflexivity.
Qed.

Lemma startswith_letter (line : string) (a : ascii) :
  startswith line (String a EmptyString) = true ->
  exists rest, line = String a rest.
Proof.
  unfold startswith. destruct line as [|b rest]; simpl; [discriminate|].
  destruct (ascii_dec a b) as [->|]; [eauto | discriminate].
Qed.

Lemma count_step_Ok (c0 : tallies) (line : string) :
  report_line_ok line = true ->
  exists c,
    count_step c0 line = Ok c
    /\ n (unique c) = n (unique c0) + bucket "U" [line]
    /\ n (ambigue c) = n (ambigue c0) + bucket "A" [line]
    /\ n (new c) = n (new c0) + bucket "N" [line].
Proof.
  intros Hline. unfold report_line_ok in Hline.
  unfold count_step, bucket. cbn [filter].
  destruct (startswith line "U") eqn:HU.
  - apply startswith_letter in HU as He. destruct He as (rest & ->).
    cbn [negb orb] in Hline. apply Nat.leb_le in Hline.
    destruct (count_line_Ok (unique c0) _ Hline) as (t & -> & Ht).
    cbn [bind]. eexists. split; [reflexivity|]. cbn. repeat split; lia.
  - destruct (startswith line "A") eqn:HA.
    + apply startswith_letter in HA as He. destruct He as (rest & ->).
      cbn [negb orb] in Hline. apply Nat.leb_le in Hline.
      destruct (count_line_Ok (ambigue c0) _ Hline) as (t & -> & Ht).
      cbn [bind]. eexists. split; [reflexivity|]. cbn. repeat split; lia.
    + destruct (startswith line "N") eqn:HN.
      * cbn [negb orb] in Hline. apply Nat.leb_le in Hline.
        destruct (count_line_Ok (new c0) _ Hline) as (t & -> & Ht).
        cbn [bind]. eexists. split; [reflexivity|]. cbn. repeat split; lia.
      * exists c0. cbn. repeat split; lia.
Qed.

Lemma bucket_cons (strategy line : string) (lines : list string) :
  bucket strategy (line :: lines)
  = bucket strategy [line] + bucket strategy lines.
Proof.
  unfold bucket. cbn [filter].
  now destruct (startswith line strategy).
Qed.

Lemma count_lines_from (lines : list string) :
  forallb report_line_ok lines = true ->
  forall c0, exists c,
    foldM count_step lines c0 = Ok c
    /\ n (unique c) = n (unique c0) + bucket "U" lines
    /\ n (ambigue c) = n (ambigue c0) + bucket "A" lines
    /\ n (new c) = n (new c0) + bucket "N" lines.
Proof.
  induction lines as [|line lines IH]; intros Hok c0; cbn [foldM].
  - exists c0. cbn. repeat split; lia.
  - cbn [forallb] in Hok. apply andb_prop in Hok as (Hline & Hok).
    destruct (count_step_Ok c0 line Hline) as (c1 & -> & H1 & H2 & H3).
    cbn [bind]. destruct (IH Hok c1) as (c & -> & H1' & H2' & H3').
    exists c. rewrite !(bucket_cons _ line lines). repeat split; lia.
Qed.

(** C8: on a file of well-formed lines in which one of the three
    strategies has no line, [calculate_accuracies] raises
    [ZeroDivisionError]; it returns no accuracy. *)
Theorem calculate_accuracies_empty_bucket (F : Type)
    (truediv : nat -> nat -> F) (times round : F -> nat -> F)
    (lines : list string) :
  forallb report_line_ok lines = true ->
  bucket "U" lines = 0 \/ bucket "A" lines = 0 \/ bucket "N" lines = 0 ->
  calculate_accuracies F truediv times round lines = Raise ZeroDivisionError.
Proof.
  intros Hok Hzero.
  destruct (count_lines_from lines Hok
              {| unique := tally0; ambigue := tally0; new := tally0 |})
    as (c & Hc & HU & HA & HN).
  cbn in HU, HA, HN.
  unfold calculate_accuracies, count_lines. rewrite Hc. cbn [bind].
  unfold accuracy.
  destruct (Nat.eqb_spec (n (unique c)) 0) as [|HU0]; [reflexivity|]. cbn [bind].
  destruct (Nat.eqb_spec (n (ambigue c)) 0) as [|HA0]; [reflexivity|]. cbn [bind].
  destruct (Nat.eqb_spec (n (new c)) 0) as [|HN0]; [reflexivity|].
  lia.
Qed.

(** A file with one line of strategy [U], one of strategy [A], and none of
    strategy [N]. *)
Lemma calculate_accuracies_empty_bucket_witness :
  calculate_accuracies nat Nat.div Nat.mul (fun x _ => x)
    [ "U" ++ tab ++ "i" ++ tab ++ "ich" ++ tab ++ "ich" ++ tab ++ "PPER"
      ++ tab ++ "PPER" ++ tab ++ "PPER" ++ tab ++ "PPER" ++ nl;
      nl;
      "A" ++ tab ++ "viiu" ++ tab ++ "viel" ++ tab ++ "viele" ++ tab ++ "PIS"
      ++ tab ++ "NN" ++ tab ++ "PIS" ++ tab ++ "PIS" ++ nl ]
  = Raise ZeroDivisionError.
Proof.
  apply calculate_accuracies_empty_bucket.
  - reflexivity.
  - right. right. reflexivity.
Defined.

(** * Further properties of baseline.py *)

(** ** The counter *)

Lemma counter_add_get (c : Counter) (x y : word_pair) :
  counter_get (counter_add c x) y
  = counter_get c y + (if word_pair_eqb x y then 1 else 0).
Proof.
  induction c as [|[z k] c IH]; simpl.
  - destruct (word_pair_eqb x y); reflexivity.
  - destruct (word_pair_eqb_spec z x) as [->|Hzx]; simpl.
    + destruct (word_pair_eqb x y); lia.
    + destruct (word_pair_eqb_spec z y) as [->|Hzy].
      * destruct (word_pair_eqb_spec x y); [congruence | lia].
      * apply IH.
Qed.

Lemma counter_of_get (l : list word_pair) (x : word_pair) :
  counter_get (counter_of l) x = pair_count x l.
Proof.
  unfold counter_of, pair_count.
  assert (H : forall c, counter_get (fold_left counter_add l c) x
                        = counter_get c x
                          + length (filter (fun y => word_pair_eqb y x) l)).
  { induction l as [|y l IH]; intros c; simpl; [lia|].
    rewrite IH, counter_add_get.
    destruct (word_pair_eqb y x); simpl; lia. }
  now rewrite H.
Qed.

Lemma first_seen_add_In (seen : list word_pair) (x y : word_pair) :
  In y (first_seen_add seen x) <-> In y seen \/ y = x.
Proof.
  unfold first_seen_add. destruct (existsb _ seen) eqn:E.
  - split; [auto|]. intros [H | ->]; [assumption|].
    apply existsb_exists in E as (z & Hz & Hzx).
    now destruct (word_pair_eqb_spec z x) as [->|]; [|discriminate].
  - rewrite in_app_iff. simpl. intuition.
Qed.

Lemma first_seen_In (l : list word_pair) (x : word_pair) :
  In x (first_seen l) <-> In x l.
Proof.
  unfold first_seen.
  assert (H : forall seen, In x (fold_left first_seen_add l seen)
                           <-> In x seen \/ In x l).
  { induction l as [|y l IH]; intros seen; simpl; [tauto|].
    rewrite IH, first_seen_add_In. intuition. }
  rewrite H. simpl. tauto.
Qed.

(** X1: [get_norm_freq] counts: the value of a word pair in the counter is
    the number of times the pair occurs in the training lines, and the
    keys are the pairs in the order in which they are first seen, each
    once. *)
Theorem get_norm_freq_counts (tokens_train : list string)
    (l : list word_pair) (c : Counter) :
  get_tuples tokens_train = Ok l ->
  get_norm_freq tokens_train = Ok c ->
  (forall x, counter_get c x = pair_count x l)
  /\ map fst c = first_seen l
  /\ NoDup (map fst c)
  /\ (forall x, In x (map fst c) <-> In x l).
Proof.
  intros Hl Hc. unfold get_norm_freq in Hc. rewrite Hl in Hc.
  injection Hc as <-.
  split; [intros x; apply counter_of_get|].
  split; [apply counter_of_keys|].
  split; [rewrite counter_of_keys; apply first_seen_NoDup|].
  intros x. rewrite counter_of_keys. apply first_seen_In.
Qed.

Lemma get_norm_freq_counts_witness :
  let tokens_train :=
    [ "hasses" ++ tab ++ "hasse es" ++ tab ++ "VVFIN+PPER" ++ nl;
      nl;
      "viiu" ++ tab ++ "viel" ++ tab ++ "PIS" ++ nl;
      "hasses" ++ tab ++ "hasse es" ++ tab ++ "VVFIN+PPER" ++ nl ] in
  get_norm_freq tokens_train
  = Ok [(Pair "hasses" "hasse es", 2); (Newline, 1); (Pair "viiu" "viel", 1)]
  /\ pair_count (Pair "hasses" "hasse es")
       [Pair "hasses" "hasse es"; Newline; Pair "viiu" "viel";
        Pair "hasses" "hasse es"] = 2.
Proof.
  intros tokens_train. split; [reflexivity|].
  rewrite <- (proj1 (get_norm_freq_counts tokens_train
    [Pair "hasses" "hasse es"; Newline; Pair "viiu" "viel";
     Pair "hasses" "hasse es"]
    [(Pair "hasses" "hasse es", 2); (Newline, 1); (Pair "viiu" "viel", 1)]
    eq_refl eq_refl)).
  reflexivity.
Defined.

(** ** The strategy, from the training lines *)

Lemma normalizations_In (key b : string) (items : list word_pair) :
  In b (normalizations key items) <-> In (Pair key b) items.
Proof.
  unfold normalizations. rewrite in_flat_map. split.
  - intros ([|a b'] & Hin & Hb); [contradiction|].
    destruct (String.eqb_spec key a) as [->|]; [|contradiction].
    destruct Hb as [<-|[]]. assumption.
  - intros Hin. exists (Pair key b). split; [assumption|].
    rewrite String.eqb_refl. now left.
Qed.

Lemma candidates_In (c : Counter) (key b : string) (k : nat)
    (items : list word_pair) :
  In (b, k) (candidates c key items)
  <-> In (Pair key b) items /\ k = counter_get c (Pair key b).
Proof.
  unfold candidates. rewrite in_flat_map. split.
  - intros ([|a b'] & Hin & Hb); [contradiction|]. simpl in Hb.
    destruct (String.eqb_spec key a) as [->|]; [|contradiction].
    destruct Hb as [E|[]]. injection E as <- <-. auto.
  - intros (Hin & ->). exists (Pair key b). split; [assumption|].
    simpl. rewrite String.eqb_refl. now left.
Qed.

Lemma translation_dict_lookup (tokens_train : list string)
    (l : list word_pair) (d : table) :
  get_tuples tokens_train = Ok l ->
  translation_dict tokens_train = Ok d ->
  forall key,
    (In key (map key_of l) ->
     dict_get d key = Some (candidates (counter_of l) key (first_seen l)))
    /\ (~ In key (map key_of l) -> dict_get d key = None).
Proof.
  intros Hl Hd key.
  assert (Hc : get_norm_freq tokens_train = Ok (counter_of l))
    by (unfold get_norm_freq; now rewrite Hl).
  destruct (translation_dict_spec _ _ Hc) as (d' & Hd' & Hg).
  assert (d' = d) by congruence. subst d'.
  rewrite Hg, counter_of_keys.
  assert (Hiff : In key (map key_of (first_seen l)) <-> In key (map key_of l)).
  { rewrite !in_map_iff. split; intros (x & Hx & Hin); exists x;
      (split; [assumption|]); now apply first_seen_In. }
  destruct (in_dec string_dec key (map key_of (first_seen l))) as [Hin|Hnin];
    split; intros H; try reflexivity; tauto.
Qed.

Lemma In_pair_key (key b : string) (l : list word_pair) :
  In (Pair key b) l -> In key (map key_of l).
Proof. intros H. apply in_map_iff. now exists (Pair key b). Qed.

(** X2: a form that heads no training line, and is not the string of an
    empty line, gets strategy [N] and itself as prediction. *)
Theorem predict_new_by_training (tokens_train : list string)
    (l : list word_pair) (d : table) (ns : string) :
  get_tuples tokens_train = Ok l ->
  translation_dict tokens_train = Ok d ->
  ns <> nl ->
  (forall b, ~ In (Pair ns b) l) ->
  predict d ns = Ok ("N", ns).
Proof.
  intros Hl Hd Hns Hnone.
  destruct (translation_dict_lookup _ _ _ Hl Hd ns) as (_ & Hnot).
  unfold predict. rewrite Hnot; [reflexivity|].
  intros Hin. apply in_map_iff in Hin as ([|a b] & Hkey & Hin);
    simpl in Hkey; [congruence|]. subst a. now apply (Hnone b).
Qed.

Lemma singleton_of_NoDup {A : Type} (l : list A) (b : A) :
  NoDup l -> In b l -> (forall x, In x l -> x = b) -> l = [b].
Proof.
  intros Hnd Hin Hall. destruct l as [|x [|y l]]; [contradiction| |].
  - f_equal. apply Hall. now left.
  - exfalso. inversion Hnd as [|? ? Hnot _]; subst. apply Hnot.
    rewrite (Hall x), (Hall y); simpl; auto.
Qed.

(** X3: a form that the training lines always pair with the same
    normalisation gets strategy [U] and that normalisation, however many
    such lines there are. *)
Theorem predict_unique_by_training (tokens_train : list string)
    (l : list word_pair) (d : table) (ns b : string) :
  get_tuples tokens_train = Ok l ->
  translation_dict tokens_train = Ok d ->
  In (Pair ns b) l ->
  (forall b', In (Pair ns b') l -> b' = b) ->
  predict d ns = Ok ("U", b).
Proof.
  intros Hl Hd Hin Hall.
  destruct (translation_dict_lookup _ _ _ Hl Hd ns) as (Hget & _).
  specialize (Hget (In_pair_key _ _ _ Hin)).
  assert (E : map fst (candidates (counter_of l) ns (first_seen l)) = [b]).
  { rewrite candidates_normalizations. apply singleton_of_NoDup.
    - apply normalizations_NoDup, first_seen_NoDup.
    - rewrite normalizations_In. now apply first_seen_In.
    - intros x Hx. rewrite normalizations_In in Hx.
      apply Hall. now apply first_seen_In. }
  unfold predict. rewrite Hget.
  destruct (candidates (counter_of l) ns (first_seen l)) as [|[b0 k] [|y t]];
    try discriminate.
  simpl in E. injection E as ->. reflexivity.
Qed.

Lemma predict_unique_by_training_witness :
  predict [("hasses", [("hasse es", 2)]); (nl, []); ("viiu", [("viel", 1)])]
          "hasses"
  = Ok ("U", "hasse es").
Proof.
  apply (predict_unique_by_training
           [ "hasses" ++ tab ++ "hasse es" ++ tab ++ "VVFIN+PPER" ++ nl;
             nl;
             "viiu" ++ tab ++ "viel" ++ tab ++ "PIS" ++ nl;
             "hasses" ++ tab ++ "hasse es" ++ tab ++ "VVFIN+PPER" ++ nl ]
           [Pair "hasses" "hasse es"; Newline; Pair "viiu" "viel";
            Pair "hasses" "hasse es"] _ "hasses" "hasse es");
    [reflexivity | reflexivity | now left |].
  intros b' [E|[E|[E|[E|[]]]]]; congruence.
Defined.

Lemma predict_new_by_training_witness :
  predict [("hasses", [("hasse es", 1)]); (nl, [])] "zz" = Ok ("N", "zz").
Proof.
  apply (predict_new_by_training
           [ "hasses" ++ tab ++ "hasse es" ++ tab ++ "VVFIN+PPER" ++ nl; nl ]
           [Pair "hasses" "hasse es"; Newline] _ "zz");
    [reflexivity | reflexivity | discriminate |].
  intros b [E|[E|[]]]; discriminate.
Defined.

Lemma two_of_NoDup {A : Type} (l : list A) (a b : A) :
  In a l -> In b l -> a <> b -> 2 <= length l.
Proof.
  intros Ha Hb Hab. destruct l as [|x [|y l]]; simpl in *;
    [contradiction | | lia].
  destruct Ha as [<-|[]], Hb as [<-|[]]. congruence.
Qed.

(** X4: a form that the training lines pair with two different
    normalisations gets strategy [A], and the prediction is a
    normalisation that no other one outnumbers: no pair of the form occurs
    in more training lines than the pair of the form and the prediction. *)
Theorem predict_ambiguous_majority (tokens_train : list string)
    (l : list word_pair) (d : table) (ns b1 b2 : string) :
  get_tuples tokens_train = Ok l ->
  translation_dict tokens_train = Ok d ->
  In (Pair ns b1) l -> In (Pair ns b2) l -> b1 <> b2 ->
  exists pred,
    predict d ns = Ok ("A", pred)
    /\ In (Pair ns pred) l
    /\ forall b, pair_count (Pair ns b) l <= pair_count (Pair ns pred) l.
Proof.
  intros Hl Hd H1 H2 Hne.
  destruct (translation_dict_lookup _ _ _ Hl Hd ns) as (Hget & _).
  specialize (Hget (In_pair_key _ _ _ H1)).
  set (cands := candidates (counter_of l) ns (first_seen l)) in *.
  assert (Hlen : 2 <= length cands).
  { rewrite <- (length_map fst). unfold cands.
    rewrite candidates_normalizations.
    apply (two_of_NoDup _ b1 b2); [| |assumption];
      rewrite normalizations_In; now apply first_seen_In. }
  destruct cands as [|x t] eqn:Ecands; [simpl in Hlen; lia|].
  destruct (max_from_split t x) as (before & after & E & Hb & Ha).
  destruct (max_from x t) as [pred freq] eqn:Hmax. simpl in Hb, Ha.
  assert (Hin : In (pred, freq) (x :: t))
    by (rewrite E; apply in_or_app; right; now left).
  rewrite <- Ecands in Hin. apply candidates_In in Hin as (Hpred & Hfreq).
  rewrite counter_of_get in Hfreq. apply -> first_seen_In in Hpred.
  exists pred. split; [|split; [assumption|]].
  - unfold predict. rewrite Hget.
    destruct (Nat.eqb_spec (length (x :: t)) 1) as [E1|_]; [lia|].
    simpl. now rewrite Hmax.
  - intros b. destruct (in_dec (list_eq_dec string_dec)
                          [ns; b] (map (fun p => match p with
                                                 | Pair a0 b0 => [a0; b0]
                                                 | Newline => []
                                                 end) l)) as [Hb'|Hb'].
    + assert (Hbl : In (Pair ns b) l).
      { apply in_map_iff in Hb' as ([|a0 b0] & Heq & Hin0);
          [discriminate|]. injection Heq as -> ->. assumption. }
      assert (Hc : In (b, pair_count (Pair ns b) l) (x :: t)).
      { rewrite <- Ecands. apply candidates_In. split.
        - now apply first_seen_In.
        - now rewrite counter_of_get. }
      rewrite E in Hc. apply in_app_or in Hc as [Hc|[Hc|Hc]].
      * rewrite Forall_forall in Hb. specialize (Hb _ Hc). simpl in Hb. lia.
      * injection Hc as -> Hc. lia.
      * rewrite Forall_forall in Ha. specialize (Ha _ Hc). simpl in Ha. lia.
    + assert (H0 : pair_count (Pair ns b) l = 0); [|lia].
      unfold pair_count.
      destruct (filter _ l) as [|y f] eqn:Ef; [reflexivity|].
      exfalso. apply Hb'.
      assert (Hy : In y (filter (fun y => word_pair_eqb y (Pair ns b)) l))
        by (rewrite Ef; now left).
      apply filter_In in Hy as (Hy & Hyeq).
      destruct (word_pair_eqb_spec y (Pair ns b)) as [->|]; [|discriminate].
      apply in_map_iff. now exists (Pair ns b).
Qed.

Lemma predict_ambiguous_majority_witness :
  exists pred,
    predict [("viiu", [("viele", 1); ("viel", 2)]); (nl, [])] "viiu"
    = Ok ("A", pred)
    /\ In (Pair "viiu" pred)
          [Pair "viiu" "viele"; Newline; Pair "viiu" "viel"; Pair "viiu" "viel"]
    /\ forall b,
         pair_count (Pair "viiu" b)
           [Pair "viiu" "viele"; Newline; Pair "viiu" "viel"; Pair "viiu" "viel"]
         <= pair_count (Pair "viiu" pred)
              [Pair "viiu" "viele"; Newline; Pair "viiu" "viel";
               Pair "viiu" "viel"].
Proof.
  apply (predict_ambiguous_majority
           [ "viiu" ++ tab ++ "viele" ++ tab ++ "PIS" ++ nl;
             nl;
             "viiu" ++ tab ++ "viel" ++ tab ++ "PIS" ++ nl;
             "viiu" ++ tab ++ "viel" ++ tab ++ "PIS" ++ nl ]
           [Pair "viiu" "viele"; Newline; Pair "viiu" "viel"; Pair "viiu" "viel"]
           _ "viiu" "viele" "viel");
    [reflexivity | reflexivity | now left | right; right; now left
     | discriminate].
Defined.

(** ** Malformed lines *)

Lemma mapM_raise {A B : Type} (f : A -> result B) (l : list A) (e : exn) :
  (forall x e', f x = Raise e' -> e' = e) ->
  forall x, In x l -> f x = Raise e -> mapM f l = Raise e.
Proof.
  intros Honly x. induction l as [|y l IH]; simpl; intros Hin Hx;
    [contradiction|].
  destruct (f y) as [b|e'] eqn:Hy; simpl.
  - destruct Hin as [->|Hin]; [congruence|]. now rewrite IH.
  - f_equal. eapply Honly; eauto.
Qed.

Lemma mapM_not_Ok {A B : Type} (f : A -> result B) (l : list A) :
  forall x e, In x l -> f x = Raise e -> exists e', mapM f l = Raise e'.
Proof.
  intros x e. induction l as [|y l IH]; simpl; intros Hin Hx; [contradiction|].
  destruct (f y) as [b|e'] eqn:Hy; simpl; [|eauto].
  destruct Hin as [->|Hin]; [congruence|].
  destruct (IH Hin Hx) as (e'' & ->). simpl. eauto.
Qed.

Lemma index_raise {A : Type} (l : list A) (i : nat) :
  length l <= i -> index l i = Raise IndexError.
Proof.
  intros Hi. unfold index. now apply nth_error_None in Hi as ->.
Qed.

Lemma index_only_IndexError {A : Type} (l : list A) (i : nat) (e : exn) :
  index l i = Raise e -> e = IndexError.
Proof.
  unfold index. destruct (nth_error l i); [discriminate | congruence].
Qed.

Lemma get_tuple_only_IndexError (line : string) (e : exn) :
  get_tuple line = Raise e -> e = IndexError.
Proof.
  unfold get_tuple. destruct (line =? nl); [discriminate|].
  destruct (index (split TAB line) 0) eqn:E0; simpl;
    [|intros H; injection H as <-; eapply index_only_IndexError; eauto].
  destruct (index (split TAB line) 1) eqn:E1; simpl; [discriminate|].
  intros H; injection H as <-; eapply index_only_IndexError; eauto.
Qed.

Lemma split_nonempty (sep : ascii) (s : string) : 1 <= length (split sep s).
Proof.
  induction s as [|c s IH]; simpl; [lia|].
  destruct (Ascii.eqb c sep); simpl; [lia|].
  destruct (split sep s); simpl; lia.
Qed.

(** X5: a training line that is not exactly the empty line and has no
    tabulator makes [normalize] raise [IndexError], whatever the lines to
    normalise: nothing is written. *)
Theorem normalize_malformed_training (tokens_train tokens_dev_or_test : list string)
    (line : string) :
  In line tokens_train ->
  line <> nl ->
  length (split TAB line) < 2 ->
  translation_dict tokens_train = Raise IndexError
  /\ normalize tokens_train tokens_dev_or_test = Raise IndexError.
Proof.
  intros Hin Hnl Hlen.
  assert (Hline : get_tuple line = Raise IndexError).
  { unfold get_tuple. apply String.eqb_neq in Hnl. rewrite Hnl.
    destruct (index_Ok (split TAB line) 0) as (a & -> & _);
      [pose proof (split_nonempty TAB line); lia|].
    simpl. rewrite index_raise by lia. reflexivity. }
  assert (Hd : translation_dict tokens_train = Raise IndexError).
  { unfold translation_dict, get_norm_freq, get_tuples.
    rewrite (mapM_raise get_tuple tokens_train IndexError
               get_tuple_only_IndexError line Hin Hline).
    reflexivity. }
  split; [assumption|]. unfold normalize. now rewrite Hd.
Qed.

Lemma normalize_malformed_training_witness :
  normalize [ "viiu" ++ tab ++ "viel" ++ tab ++ "PIS" ++ nl; " " ++ nl ]
            [ "viiu" ++ tab ++ "viele" ++ tab ++ "PIS" ++ nl ]
  = Raise IndexError.
Proof.
  apply (normalize_malformed_training _ _ (" " ++ nl));
    [right; now left | discriminate | simpl; lia].
Defined.

(** X6: a line to normalise that is not exactly the empty line and has
    fewer than three columns makes [normalize] raise: no list of written
    strings is returned. *)
Theorem normalize_malformed_line (tokens_train tokens_dev_or_test : list string)
    (line : string) :
  In line tokens_dev_or_test ->
  line <> nl ->
  length (split TAB line) < 3 ->
  exists e, normalize tokens_train tokens_dev_or_test = Raise e.
Proof.
  intros Hin Hnl Hlen. unfold normalize.
  destruct (translation_dict tokens_train) as [d|e]; simpl; [|eauto].
  apply (mapM_not_Ok (normalize_line d) _ line IndexError Hin).
  unfold normalize_line, normalize_record.
  apply String.eqb_neq in Hnl. rewrite Hnl.
  destruct (split TAB line) as [|ns [|std [|pos rest]]] eqn:E;
    simpl in Hlen; try lia; reflexivity.
Qed.

Lemma normalize_malformed_line_witness :
  exists e,
    normalize [ "viiu" ++ tab ++ "viel" ++ tab ++ "PIS" ++ nl ]
              [ "viiu" ++ tab ++ "viele" ++ nl ]
    = Raise e.
Proof.
  apply (normalize_malformed_line _ _ ("viiu" ++ tab ++ "viele" ++ nl));
    [now left | discriminate | simpl; lia].
Defined.

(** ** Columns *)

Lemma mem_char_cons (c a : ascii) (s : string) :
  mem_char c (String a s) = Ascii.eqb c a || mem_char c s.
Proof. reflexivity. Qed.

Lemma split_fields_free (sep : ascii) (s : string) :
  Forall (fun f => mem_char sep f = false) (split sep s).
Proof.
  induction s as [|c s IH]; simpl.
  - constructor; [reflexivity | constructor].
  - destruct (Ascii.eqb c sep) eqn:E.
    + constructor; [reflexivity | assumption].
    + destruct (split sep s) as [|f fs]; inversion IH; subst;
        constructor; try assumption;
        rewrite mem_char_cons, Ascii.eqb_sym, E; simpl; auto.
Qed.

Lemma split_app_sep (sep : ascii) (a rest : string) :
  mem_char sep a = false ->
  split sep (a ++ String sep rest) = a :: split sep rest.
Proof.
  induction a as [|c a IH]; simpl; intros Hfree.
  - now rewrite Ascii.eqb_refl.
  - rewrite mem_char_cons in Hfree. apply orb_false_elim in Hfree as (Hc & Ha).
    rewrite Ascii.eqb_sym, Hc, (IH Ha). reflexivity.
Qed.

Lemma split_free (sep : ascii) (a : string) :
  mem_char sep a = false -> split sep a = [a].
Proof.
  induction a as [|c a IH]; simpl; intros Hfree; [reflexivity|].
  rewrite mem_char_cons in Hfree. apply orb_false_elim in Hfree as (Hc & Ha).
  rewrite Ascii.eqb_sym, Hc, (IH Ha). reflexivity.
Qed.

Lemma split_line_out (r : out_record) :
  mem_char TAB (n_strategy r) = false ->
  mem_char TAB (non_standard r) = false ->
  mem_char TAB (n_pred r) = false ->
  mem_char TAB (standard r) = false ->
  mem_char TAB (POS r) = false ->
  split TAB (line_out r)
  = [n_strategy r; non_standard r; n_pred r; standard r; POS r].
Proof.
  intros H1 H2 H3 H4 H5. unfold line_out, tab.
  cbn [append].
  repeat (rewrite split_app_sep by assumption; f_equal).
  now apply split_free.
Qed.

Lemma mapM_In {A B : Type} (f : A -> result B) (l : list A) (ys : list B) :
  mapM f l = Ok ys ->
  forall y, In y ys -> exists x, In x l /\ f x = Ok y.
Proof.
  revert ys; induction l as [|x l IH]; simpl; intros ys H y Hy.
  - injection H as <-. contradiction.
  - apply bind_Ok_inv in H as (y0 & Hy0 & H).
    apply bind_Ok_inv in H as (ys' & Hys & H). injection H as <-.
    destruct Hy as [<-|Hy]; [eauto|].
    destruct (IH _ Hys _ Hy) as (x' & Hin & Hx'). eauto.
Qed.

Lemma nth_error_split_free (sep : ascii) (s f : string) (i : nat) :
  nth_error (split sep s) i = Some f -> mem_char sep f = false.
Proof.
  intros H. apply nth_error_In in H.
  pose proof (split_fields_free sep s) as Hall.
  rewrite Forall_forall in Hall. now apply Hall.
Qed.

Lemma index_Ok_inv {A : Type} (l : list A) (i : nat) (x : A) :
  index l i = Ok x -> nth_error l i = Some x.
Proof.
  unfold index. destruct (nth_error l i); [congruence | discriminate].
Qed.

(** The normalisations kept in the table hold no tabulator. *)
Lemma table_normalizations_free (tokens_train : list string) (d : table)
    (key b : string) (k : nat) (list_tuples : list (string * nat)) :
  translation_dict tokens_train = Ok d ->
  dict_get d key = Some list_tuples ->
  In (b, k) list_tuples ->
  mem_char TAB b = false.
Proof.
  intros Hd Hget Hin.
  destruct (get_tuples tokens_train) as [l|e] eqn:Hl;
    [|unfold translation_dict, get_norm_freq in Hd; rewrite Hl in Hd;
      discriminate].
  destruct (translation_dict_lookup _ _ _ Hl Hd key) as (Hyes & Hno).
  destruct (in_dec string_dec key (map key_of l)) as [Hk|Hk];
    [|rewrite (Hno Hk) in Hget; discriminate].
  rewrite (Hyes Hk) in Hget. injection Hget as <-.
  apply candidates_In in Hin as (Hin & _). apply -> first_seen_In in Hin.
  destruct (mapM_In _ _ _ Hl _ Hin) as (line & _ & Hline).
  unfold get_tuple in Hline. destruct (line =? nl); [discriminate|].
  apply bind_Ok_inv in Hline as (a0 & _ & Hline).
  apply bind_Ok_inv in Hline as (b0 & Hb0 & Hline).
  injection Hline as _ ->.
  eapply nth_error_split_free, index_Ok_inv; eauto.
Qed.

Lemma max_from_In (l : list (string * nat)) (x : string * nat) :
  In (max_from x l) (x :: l).
Proof.
  destruct (max_from_split l x) as (before & after & E & _).
  rewrite E. apply in_or_app. right. now left.
Qed.

Lemma predict_cases (d : table) (ns s pred : string) :
  predict d ns = Ok (s, pred) ->
  (s = "N" /\ pred = ns)
  \/ ((s = "U" \/ s = "A")
      /\ exists list_tuples k,
           dict_get d ns = Some list_tuples /\ In (pred, k) list_tuples).
Proof.
  unfold predict. destruct (dict_get d ns) as [cands|];
    [|intros H; injection H as <- <-; now left].
  intros H. right. destruct (length cands =? 1)%nat.
  - apply bind_Ok_inv in H as (x & Hx & H). injection H as <- <-.
    split; [now left|]. exists cands, (snd x). split; [reflexivity|].
    apply index_Ok_inv, nth_error_In in Hx. now destruct x.
  - apply bind_Ok_inv in H as (x & Hx & H). injection H as <- <-.
    split; [now right|]. exists cands, (snd x). split; [reflexivity|].
    destruct cands as [|c0 t]; [discriminate|]. injection Hx as <-.
    pose proof (max_from_In t c0) as Hm. now destruct (max_from c0 t).
Qed.

(** X7: with a table built from training lines, a three-column line whose
    form is not the string of an empty line is written as a line of five
    columns: the strategy letter, the form, the prediction, the gold
    normalisation and the tag.  [columns_to_lists] of evaluation.py reads
    the form, the gold normalisation and the prediction back from it. *)
Theorem normalize_line_five_columns (tokens_train : list string) (d : table)
    (line ns std pos : string) :
  translation_dict tokens_train = Ok d ->
  line <> nl ->
  split TAB line = [ns; std; pos] ->
  ns <> nl ->
  exists out s pred,
    normalize_line d line = Ok out
    /\ predict d ns = Ok (s, pred)
    /\ (s = "U" \/ s = "A" \/ s = "N")
    /\ split TAB out = [s; ns; pred; std; pos]
    /\ columns_of_line out = Ok (rstrip ns, rstrip std, rstrip pred).
Proof.
  intros Hd Hnl Hsplit Hns.
  destruct (predict_total _ _ ns Hd Hns) as ([s pred] & Hp).
  assert (Hfree : Forall (fun f => mem_char TAB f = false) [ns; std; pos])
    by (rewrite <- Hsplit; apply split_fields_free).
  inversion Hfree as [|? ? Fns Hfree1]; subst.
  inversion Hfree1 as [|? ? Fstd Hfree2]; subst.
  inversion Hfree2 as [|? ? Fpos _]; subst.
  assert (Hs : s = "U" \/ s = "A" \/ s = "N")
    by (destruct (predict_cases _ _ _ _ Hp) as [(-> & _)|([->| ->] & _)]; auto).
  assert (Fs : mem_char TAB s = false)
    by (destruct Hs as [->|[->| ->]]; reflexivity).
  assert (Fpred : mem_char TAB pred = false).
  { destruct (predict_cases _ _ _ _ Hp)
      as [(_ & ->)|(_ & cands & k & Hget & Hin)]; [assumption|].
    eapply table_normalizations_free; eauto. }
  set (r := {| n_strategy := s; non_standard := ns; n_pred := pred;
               standard := std; POS := pos |}).
  assert (Hout : split TAB (line_out r) = [s; ns; pred; std; pos])
    by (now apply split_line_out).
  exists (line_out r), s, pred.
  split.
  { unfold normalize_line, normalize_record.
    apply String.eqb_neq in Hnl. rewrite Hnl, Hsplit. unfold index; simpl.
    rewrite Hp. reflexivity. }
  split; [assumption|]. split; [assumption|]. split; [assumption|].
  unfold columns_of_line. rewrite Hout.
  assert (Hne : (line_out r =? nl) = false).
  { apply String.eqb_neq. intros E. rewrite E in Hout.
    destruct Hs as [->|[->| ->]]; discriminate. }
  rewrite Hne. reflexivity.
Qed.

Lemma normalize_line_five_columns_witness :
  exists out s pred,
    normalize_line [("viiu", [("viel", 1)]); (nl, [])]
                   ("viiu" ++ tab ++ "viele" ++ tab ++ "PIS" ++ nl) = Ok out
    /\ predict [("viiu", [("viel", 1)]); (nl, [])] "viiu" = Ok (s, pred)
    /\ (s = "U" \/ s = "A" \/ s = "N")
    /\ split TAB out = [s; "viiu"; pred; "viele"; "PIS" ++ nl]
    /\ columns_of_line out = Ok (rstrip "viiu", rstrip "viele", rstrip pred).
Proof.
  apply (normalize_line_five_columns
           [ "viiu" ++ tab ++ "viel" ++ tab ++ "PIS" ++ nl; nl ]
           [("viiu", [("viel", 1)]); (nl, [])]
           ("viiu" ++ tab ++ "viele" ++ tab ++ "PIS" ++ nl)
           "viiu" "viele" ("PIS" ++ nl));
    [reflexivity | discriminate | reflexivity | discriminate].
Defined.

(** ** The names of the files written *)

Lemma rstrip_chars_all (chars s : string) :
  all_in chars s = true -> rstrip_chars chars s = EmptyString.
Proof.
  unfold all_in. induction s as [|c s IH]; simpl; intros H; [reflexivity|].
  apply andb_prop in H as (Hc & Hs). now rewrite (IH Hs), Hc.
Qed.

Lemma rstrip_chars_app_all (chars s suffix : string) :
  all_in chars suffix = true ->
  rstrip_chars chars (s ++ suffix) = rstrip_chars chars s.
Proof.
  intros H. induction s as [|c s IH]; simpl.
  - now apply rstrip_chars_all.
  - now rewrite IH.
Qed.

Lemma rstrip_chars_app_keep (chars s t : string) :
  rstrip_chars chars t <> EmptyString ->
  rstrip_chars chars (s ++ t) = s ++ rstrip_chars chars t.
Proof.
  intros H. induction s as [|c s IH]; simpl; [reflexivity|].
  rewrite IH. destruct (s ++ rstrip_chars chars t) eqn:E; [|reflexivity].
  destruct s; simpl in E; [contradiction | discriminate].
Qed.

Lemma rstrip_chars_fixed (chars s : string) :
  rstrip_chars chars s = s <-> ends_in chars s = false.
Proof.
  induction s as [|c s IH]; [simpl; tauto|].
  destruct s as [|c' s'].
  - simpl. destruct (mem_char c chars); split; congruence.
  - change (ends_in chars (String c (String c' s')))
      with (ends_in chars (String c' s')).
    rewrite <- IH.
    change (rstrip_chars chars (String c (String c' s')))
      with (match rstrip_chars chars (String c' s') with
            | EmptyString =>
                if mem_char c chars then EmptyString else String c EmptyString
            | r => String c r
            end).
    destruct (rstrip_chars chars (String c' s')) as [|a r] eqn:E.
    + split; [|discriminate].
      destruct (mem_char c chars); discriminate.
    + split; congruence.
Qed.

Lemma string_app_assoc (s t u : string) : (s ++ t) ++ u = s ++ t ++ u.
Proof. induction s as [|c s IH]; simpl; [reflexivity | now rewrite IH]. Qed.

(** X8: for a development file named [stem.txt], [main] of baseline.py
    writes to [stem_norm_out.txt] exactly when the stem does not end in a
    dot, a [t] or an [x]; in general the name is built on the stem with
    such characters stripped from its end. *)
Theorem dev_path_out_stem (stem : string) :
  path_out (dev_path_in (stem ++ ".txt"))
  = path_out (rstrip_chars ".txt" stem)
  /\ (dev_path_in (stem ++ ".txt") = stem <-> ends_in ".txt" stem = false).
Proof.
  unfold dev_path_in.
  rewrite rstrip_chars_app_all by reflexivity.
  split; [reflexivity | apply rstrip_chars_fixed].
Qed.

(** X9: for a test file named [stem.txt], [main] of baseline.py writes to
    [stem_norm_out.txt] exactly when the stem does not end in a dot: a
    final [t] or [x] of the stem is kept, unlike for the development
    file. *)
Theorem test_path_out_stem (stem : string) :
  path_out (test_path_in (stem ++ ".txt"))
  = path_out (rstrip_chars "." stem)
  /\ (test_path_in (stem ++ ".txt") = stem <-> ends_in "." stem = false).
Proof.
  unfold test_path_in.
  rewrite (rstrip_chars_app_keep "txt" stem ".txt") by discriminate.
  change (rstrip_chars "txt" ".txt") with ".".
  rewrite rstrip_chars_app_all by reflexivity.
  split; [reflexivity | apply rstrip_chars_fixed].
Qed.

(** X10: on a file that [normalize] has written for the path [p],
    [write_outfile] in [main] of evaluation.py writes to
    [p_norm_POS_out.txt], whatever the path. *)
Theorem outfile_path_of_norm_out (p : string)
    (orig_lines POS_lb POS_ub POS_bl : list string) (out : string * list string) :
  write_outfile orig_lines POS_lb POS_ub POS_bl (path_in_of (path_out p))
  = Ok out ->
  fst out = p ++ "_norm_POS_out.txt".
Proof.
  unfold write_outfile, path_in_of, path_out. intros H.
  apply bind_Ok_inv in H as (outs & _ & H). injection H as <-.
  rewrite (rstrip_chars_app_keep "out.txt" p "_norm_out.txt") by discriminate.
  change (rstrip_chars "out.txt" "_norm_out.txt") with "_norm_".
  cbn [fst]. rewrite string_app_assoc. reflexivity.
Qed.

Lemma outfile_path_of_norm_out_witness :
  fst ("WUS_POS_data/dev_norm_POS_out.txt", [nl])
  = "WUS_POS_data/dev" ++ "_norm_POS_out.txt".
Proof.
  apply (outfile_path_of_norm_out "WUS_POS_data/dev" [nl] [] [] []).
  reflexivity.
Defined.

(** X11: [main] of baseline.py on files named [dev.txt] and [test.txt]
    (stems not ending in a stripped character) returns exactly when both
    calls of [normalize] return, and then it has written the two files
    [dev_norm_out.txt] and [test_norm_out.txt], in this order, each with
    the strings of its call. *)
Theorem main_writes_two_files (dev_stem test_stem : string)
    (train_lines dev_lines test_lines : list string) :
  ends_in ".txt" dev_stem = false ->
  ends_in "." test_stem = false ->
  forall outs,
    main (dev_stem ++ ".txt") (test_stem ++ ".txt")
         train_lines dev_lines test_lines = Ok outs
    <-> exists dev_out test_out,
          normalize train_lines dev_lines = Ok dev_out
          /\ normalize train_lines test_lines = Ok test_out
          /\ outs = [(dev_stem ++ "_norm_out.txt", dev_out);
                     (test_stem ++ "_norm_out.txt", test_out)].
Proof.
  intros Hdev Htest outs. unfold main, normalize_file, dev_path_in, test_path_in.
  rewrite rstrip_chars_app_all by reflexivity.
  rewrite (rstrip_chars_app_keep "txt" test_stem ".txt") by discriminate.
  change (rstrip_chars "txt" ".txt") with ".".
  rewrite rstrip_chars_app_all by reflexivity.
  apply rstrip_chars_fixed in Hdev, Htest. rewrite Hdev, Htest.
  unfold path_out. split.
  - intros H.
    destruct (normalize train_lines dev_lines) as [o1|]; [|discriminate].
    destruct (normalize train_lines test_lines) as [o2|]; [|discriminate].
    simpl in H. injection H as <-. eauto.
  - intros (o1 & o2 & -> & -> & ->). reflexivity.
Qed.

Lemma main_writes_two_files_witness :
  main ("data/dev" ++ ".txt") ("data/test" ++ ".txt")
       [ "viiu" ++ tab ++ "viel" ++ tab ++ "PIS" ++ nl ]
       [ nl ]
       [ "viiu" ++ tab ++ "viele" ++ tab ++ "PIS" ++ nl ]
  = Ok [ ("data/dev" ++ "_norm_out.txt", [nl]);
         ("data/test" ++ "_norm_out.txt",
          ["U" ++ tab ++ "viiu" ++ tab ++ "viel" ++ tab ++ "viele" ++ tab
           ++ "PIS" ++ nl]) ].
Proof.
  apply (main_writes_two_files "data/dev" "data/test"); [reflexivity..|].
  do 2 eexists. repeat split; reflexivity.
Defined.

(** * Further properties of evaluation.py *)

(** ** The columns *)

Lemma rstrip_not_nl (s : string) : rstrip s <> nl.
Proof.
  destruct s as [|c s]; simpl; [discriminate|].
  destruct (rstrip s) as [|a r].
  - destruct (isspace c) eqn:E; [discriminate|].
    intros H. injection H as ->. discriminate.
  - discriminate.
Qed.

Lemma columns_of_line_only_IndexError (line : string) (e : exn) :
  columns_of_line line = Raise e -> e = IndexError.
Proof.
  unfold columns_of_line. destruct (line =? nl); [discriminate|].
  destruct (index (split TAB line) 1) eqn:E1; simpl;
    [|intros H; injection H as <-; eapply index_only_IndexError; eauto].
  destruct (index (split TAB line) 3) eqn:E3; simpl;
    [|intros H; injection H as <-; eapply index_only_IndexError; eauto].
  destruct (index (split TAB line) 2) eqn:E2; simpl; [discriminate|].
  intros H; injection H as <-; eapply index_only_IndexError; eauto.
Qed.

Lemma columns_of_line_blank (line : string) (c : string * string * string) :
  columns_of_line line = Ok c ->
  (line = nl <-> fst (fst c) = nl)
  /\ (line = nl <-> snd (fst c) = nl)
  /\ (line = nl <-> snd c = nl).
Proof.
  unfold columns_of_line. destruct (String.eqb_spec line nl) as [->|Hne].
  - intros H. injection H as <-. simpl. tauto.
  - intros H.
    apply bind_Ok_inv in H as (a & _ & H).
    apply bind_Ok_inv in H as (b & _ & H).
    apply bind_Ok_inv in H as (c0 & _ & H). injection H as <-. simpl.
    pose proof (rstrip_not_nl a). pose proof (rstrip_not_nl b).
    pose proof (rstrip_not_nl c0). tauto.
Qed.

Lemma columns_to_lists_Forall2 (lines non_standard norm_gs norm_aut : list string) :
  columns_to_lists lines = Ok (non_standard, norm_gs, norm_aut) ->
  Forall2 (fun token line => token = nl <-> line = nl) non_standard lines
  /\ Forall2 (fun token line => token = nl <-> line = nl) norm_gs lines
  /\ Forall2 (fun token line => token = nl <-> line = nl) norm_aut lines.
Proof.
  unfold columns_to_lists. intros H.
  apply bind_Ok_inv in H as (cols & Hcols & H). injection H as <- <- <-.
  revert cols Hcols. induction lines as [|line lines IH]; simpl; intros cols H.
  - injection H as <-. simpl. repeat split; constructor.
  - apply bind_Ok_inv in H as (c & Hc & H).
    apply bind_Ok_inv in H as (cols' & Hcols' & H). injection H as <-.
    destruct (IH _ Hcols') as (H1 & H2 & H3).
    destruct (columns_of_line_blank _ _ Hc) as (B1 & B2 & B3).
    simpl. repeat split; constructor; tauto.
Qed.

Lemma Forall2_blank_nth (text lines : list string) :
  Forall2 (fun token line => token = nl <-> line = nl) text lines ->
  forall k, nth_error text k = Some nl <-> nth_error lines k = Some nl.
Proof.
  induction 1 as [|t l ts ls Htl _ IH]; intros k.
  - destruct k; simpl; split; discriminate.
  - destruct k as [|k]; simpl; [|apply IH].
    split; intros E; injection E as E; f_equal; tauto.
Qed.

(** X12: the three lists of [columns_to_lists] are as long as the list of
    lines, and each holds ['\n'] exactly at the indexes of the empty
    lines. *)
Theorem columns_to_lists_shape (lines non_standard norm_gs norm_aut : list string) :
  columns_to_lists lines = Ok (non_standard, norm_gs, norm_aut) ->
  length non_standard = length lines
  /\ length norm_gs = length lines
  /\ length norm_aut = length lines
  /\ forall k,
       (nth_error non_standard k = Some nl <-> nth_error lines k = Some nl)
       /\ (nth_error norm_gs k = Some nl <-> nth_error lines k = Some nl)
       /\ (nth_error norm_aut k = Some nl <-> nth_error lines k = Some nl).
Proof.
  intros H. destruct (columns_to_lists_Forall2 _ _ _ _ H) as (H1 & H2 & H3).
  split; [eapply Forall2_length; eassumption|].
  split; [eapply Forall2_length; eassumption|].
  split; [eapply Forall2_length; eassumption|].
  intros k. split; [|split]; now apply Forall2_blank_nth.
Qed.

Lemma columns_to_lists_shape_witness :
  let lines := [ "A" ++ tab ++ "i" ++ tab ++ "ich" ++ tab ++ "ich" ++ tab
                 ++ "PPER" ++ nl; nl ] in
  length ["i"; nl] = length lines.
Proof.
  intros lines.
  apply (columns_to_lists_shape lines ["i"; nl] ["ich"; nl] ["ich"; nl]).
  reflexivity.
Defined.

(** X13: a line that is not exactly the empty line and has fewer than
    four columns makes [columns_to_lists] raise [IndexError]; the fifth
    column is not needed. *)
Theorem columns_to_lists_malformed (lines : list string) (line : string) :
  In line lines ->
  line <> nl ->
  length (split TAB line) < 4 ->
  columns_to_lists lines = Raise IndexError.
Proof.
  intros Hin Hnl Hlen. unfold columns_to_lists.
  rewrite (mapM_raise columns_of_line lines IndexError
             columns_of_line_only_IndexError line Hin); [reflexivity|].
  unfold columns_of_line. apply String.eqb_neq in Hnl. rewrite Hnl.
  destruct (split TAB line) as [|a [|b [|c [|c' rest]]]] eqn:E;
    simpl in Hlen; try lia; reflexivity.
Qed.

Lemma columns_to_lists_malformed_witness :
  columns_to_lists [ nl; "A" ++ tab ++ "i" ++ tab ++ "ich" ++ nl ]
  = Raise IndexError.
Proof.
  apply (columns_to_lists_malformed _ ("A" ++ tab ++ "i" ++ tab ++ "ich" ++ nl));
    [right; now left | discriminate | simpl; lia].
Defined.

(** ** Sentences *)

Lemma existsb_eqb_filter_seq (P : nat -> bool) (n i : nat) :
  existsb (Nat.eqb i) (filter P (seq 0 n)) = (i <? n)%nat && P i.
Proof.
  apply Bool.eq_iff_eq_true.
  rewrite existsb_exists, andb_true_iff, Nat.ltb_lt. split.
  - intros (x & Hx & Hix). apply Nat.eqb_eq in Hix. subst x.
    apply filter_In in Hx as (Hx & HP). apply in_seq in Hx. split; [lia | auto].
  - intros (Hi & HP). exists i. split; [|apply Nat.eqb_refl].
    apply filter_In. split; [apply in_seq; lia | assumption].
Qed.

(** X14: [sent_boundaries] appends one ['\n'] to [lines]; the indexes it
    returns are, in increasing order and each once, those of the empty
    lines of the extended list, so the index of the appended line is
    always among them. *)
Theorem sent_boundaries_spec (lines : list string) :
  snd (sent_boundaries lines) = (lines ++ [nl])%list
  /\ (forall i, In i (fst (sent_boundaries lines))
               <-> nth_error (lines ++ [nl]) i = Some nl)
  /\ In (length lines) (fst (sent_boundaries lines))
  /\ NoDup (fst (sent_boundaries lines))
  /\ (forall j k a b, j < k ->
        nth_error (fst (sent_boundaries lines)) j = Some a ->
        nth_error (fst (sent_boundaries lines)) k = Some b -> a < b).
Proof.
  unfold sent_boundaries. cbn [fst snd].
  set (L := (lines ++ [nl])%list).
  set (P := fun i => match nth_error L i with
                     | Some l => l =? nl
                     | None => false
                     end).
  assert (Hin : forall i, In i (filter P (seq 0 (length L)))
                          <-> nth_error L i = Some nl).
  { intros i. rewrite filter_In, in_seq. unfold P. split.
    - intros (_ & H). destruct (nth_error L i) as [l|]; [|discriminate].
      now apply String.eqb_eq in H as ->.
    - intros H. rewrite H, String.eqb_refl. split; [|reflexivity].
      assert (i < length L) by (apply nth_error_Some; congruence). lia. }
  split; [reflexivity|]. split; [exact Hin|]. split.
  - apply Hin. unfold L. rewrite nth_error_app2 by lia.
    now rewrite Nat.sub_diag.
  - split; [apply NoDup_filter, seq_NoDup|].
    generalize 0 (length L). intros start len. revert start.
    induction len as [|len IH]; intros start j k a b Hjk Hj Hk; simpl in *.
    + destruct j; discriminate.
    + assert (Hge : forall m x, nth_error (filter P (seq (S start) len)) m
                                = Some x -> start < x).
      { intros m x Hx. apply nth_error_In, filter_In in Hx as (Hx & _).
        apply in_seq in Hx. lia. }
      destruct (P start); simpl in *.
      * destruct j as [|j], k as [|k]; simpl in *; try lia.
        -- injection Hj as <-. eapply Hge; eauto.
        -- eapply (IH (S start) j k); eauto. lia.
      * eapply (IH (S start) j k); eauto.
Qed.

Lemma boundary_skipn (lines : list string) (i : nat) :
  boundary (skipn i lines)
  = match nth_error (lines ++ repeat nl (S i)) i with
    | Some l => l =? nl
    | None => false
    end.
Proof.
  unfold boundary. destruct (Nat.lt_ge_cases i (length lines)) as [Hlt|Hge].
  - rewrite nth_error_app1 by assumption.
    rewrite <- (hd_error_skipn i lines).
    destruct (skipn i lines) as [|l t] eqn:E; [|reflexivity].
    exfalso. assert (H : length (skipn i lines) = 0) by now rewrite E.
    rewrite length_skipn in H. lia.
  - rewrite skipn_all2 by assumption.
    rewrite nth_error_app2 by assumption.
    rewrite nth_error_repeat by lia. now rewrite String.eqb_refl.
Qed.

Lemma repeat_snoc (a : string) (i : nat) :
  (repeat a i ++ [a])%list = repeat a (S i).
Proof. now rewrite <- repeat_cons. Qed.

Lemma extract_step_eq (lines : list string) (i : nat)
    (sentence sentences : list string) (token : string) :
  extract_step (sentence, sentences, (lines ++ repeat nl i)%list) (i, token)
  = if boundary (skipn i lines)
    then ([], (sentences ++ [join " " sentence])%list,
          (lines ++ repeat nl (S i))%list)
    else ((sentence ++ [token])%list, sentences,
          (lines ++ repeat nl (S i))%list).
Proof.
  unfold extract_step, sent_boundaries.
  rewrite <- app_assoc, repeat_snoc, existsb_eqb_filter_seq, boundary_skipn.
  assert (Hi : (i <? length (lines ++ repeat nl (S i)))%nat = true).
  { apply Nat.ltb_lt. rewrite length_app, repeat_length. lia. }
  rewrite Hi. reflexivity.
Qed.

Lemma tl_skipn {A : Type} (l : list A) (i : nat) :
  tl (skipn i l) = skipn (S i) l.
Proof.
  revert l; induction i as [|i IH]; intros [|x l]; simpl; try reflexivity.
  apply IH.
Qed.

Lemma extract_fold (lines : list string) (text : list string) :
  forall i sentence sentences,
  exists sentence',
    fold_left extract_step (combine (seq i (length text)) text)
              (sentence, sentences, (lines ++ repeat nl i)%list)
    = (sentence',
       (sentences ++ group sentence text (skipn i lines))%list,
       (lines ++ repeat nl (i + length text))%list).
Proof.
  induction text as [|token text IH]; intros i sentence sentences.
  - simpl. exists sentence. now rewrite app_nil_r, Nat.add_0_r.
  - cbn [length seq combine fold_left group].
    rewrite extract_step_eq, tl_skipn.
    replace (i + S (length text)) with (S i + length text) by lia.
    destruct (boundary (skipn i lines)).
    + destruct (IH (S i) [] (sentences ++ [join " " sentence])%list)
        as (s' & ->).
      exists s'. now rewrite <- app_assoc.
    + apply IH.
Qed.

Lemma extract_sentences_eq (text lines : list string) :
  extract_sentences text lines
  = (group [] (text ++ [nl]) lines,
     (text ++ [nl])%list,
     (lines ++ repeat nl (length text + 1))%list).
Proof.
  unfold extract_sentences.
  destruct (extract_fold lines (text ++ [nl]) 0 [] []) as (s' & H).
  simpl repeat in H. rewrite app_nil_r in H. rewrite H.
  simpl. now rewrite length_app.
Qed.

(** X15: [extract_sentences] walks the tokens along the lines as it got
    them: it closes a sentence, the tokens joined by single spaces, at
    every index where the line is empty or the lines have ended.  The
    token list is left with one more ['\n'], and the list of lines with
    one more ['\n'] for every token and one for the end. *)
Theorem extract_sentences_spec (text lines : list string) :
  extract_sentences text lines
  = (group [] (text ++ [nl]) lines,
     (text ++ [nl])%list,
     (lines ++ repeat nl (length text + 1))%list).
Proof. apply extract_sentences_eq. Qed.

Lemma group_extended (text : list string) :
  forall sentence lines k,
    group sentence text (lines ++ repeat nl k) = group sentence text lines.
Proof.
  induction text as [|token text IH]; intros sentence lines k; simpl;
    [reflexivity|].
  destruct lines as [|l lines]; simpl.
  - destruct k as [|k]; simpl; [reflexivity|].
    f_equal. apply (IH [] [] k).
  - destruct (l =? nl); [f_equal|]; apply IH.
Qed.

(** X16: the sentences do not depend on the lines that earlier calls have
    appended: in [main], where the three calls share one list of lines,
    the second call returns the sentences it would return on the lines as
    read. *)
Theorem extract_sentences_shared_lines (text1 text2 lines : list string) :
  let '(_, _, lines2) := extract_sentences text1 lines in
  fst (fst (extract_sentences text2 lines2))
  = fst (fst (extract_sentences text2 lines)).
Proof.
  rewrite !extract_sentences_eq. cbn [fst]. apply group_extended.
Qed.

Lemma group_consistent (text lines : list string) :
  Forall2 (fun token line => token = nl <-> line = nl) text lines ->
  forall sentence,
    group sentence (text ++ [nl]) lines
    = map (join " ") (sentences_of sentence text).
Proof.
  induction 1 as [|token line text lines Htl _ IH]; intros sentence; simpl;
    [reflexivity|].
  destruct (String.eqb_spec line nl) as [Hl|Hl],
           (String.eqb_spec token nl) as [Ht|Ht]; try tauto; simpl;
    now rewrite IH.
Qed.

Lemma sentences_of_length (text : list string) : forall sentence,
  length (sentences_of sentence text)
  = S (length (filter (fun token => token =? nl) text)).
Proof.
  induction text as [|token text IH]; intros sentence; simpl; [reflexivity|].
  destruct (token =? nl); simpl; now rewrite IH.
Qed.

(** X17: in [main] the sentences of a column are the runs of its tokens
    between the empty lines, each run joined by single spaces, the last
    run closed by the end of the file; there is one sentence more than
    there are empty lines. *)
Theorem column_sentences (lines non_standard norm_gs norm_aut : list string) :
  columns_to_lists lines = Ok (non_standard, norm_gs, norm_aut) ->
  fst (fst (extract_sentences non_standard lines))
  = map (join " ") (sentences_of [] non_standard)
  /\ fst (fst (extract_sentences norm_gs lines))
     = map (join " ") (sentences_of [] norm_gs)
  /\ fst (fst (extract_sentences norm_aut lines))
     = map (join " ") (sentences_of [] norm_aut)
  /\ length (fst (fst (extract_sentences non_standard lines)))
     = S (length (filter (fun line => line =? nl) lines)).
Proof.
  intros H. destruct (columns_to_lists_Forall2 _ _ _ _ H) as (H1 & H2 & H3).
  rewrite !extract_sentences_eq. cbn [fst].
  rewrite !group_consistent by assumption.
  repeat split. rewrite length_map, sentences_of_length. f_equal.
  clear H H2 H3. induction H1 as [|token line text lines' Htl _ IH]; simpl;
    [reflexivity|].
  destruct (String.eqb_spec line nl) as [Hl|Hl],
           (String.eqb_spec token nl) as [Ht|Ht]; try tauto; simpl;
    now rewrite IH.
Qed.

Lemma column_sentences_witness :
  fst (fst (extract_sentences ["i"; "muen"; nl; "Die wahrheit"]
              [ line_of "i"; line_of "muen"; nl; line_of "Die wahrheit" ]))
  = ["i muen"; "Die wahrheit"].
Proof.
  apply (proj1 (column_sentences
           [ line_of "i"; line_of "muen"; nl; line_of "Die wahrheit" ]
           ["i"; "muen"; nl; "Die wahrheit"]
           ["i"; "muen"; nl; "Die wahrheit"]
           ["i"; "muen"; nl; "Die wahrheit"] eq_refl)).
Defined.

(** ** The aligner on a tagger output that follows the tokens *)

Lemma tok_at_head (pre post : list tagged) (p : string * string) :
  tok_at (pre ++ tok p :: post) (length pre) = Ok p.
Proof.
  unfold tok_at, index. rewrite nth_error_app2, Nat.sub_diag by lia.
  simpl. now destruct p.
Qed.

Lemma align_Aligned (tokens : list string) (s : list tagged)
    (es : list aligned) :
  Aligned tokens s es ->
  forall pre post correct_POS,
    foldM (align_step (pre ++ s ++ post)) tokens (length pre, correct_POS)
    = Ok (length pre + length s, (correct_POS ++ es)%list).
Proof.
  induction 1 as [ | word e tokens s es Hw _ IH
                   | word tag k skipped tokens s es Hw Hd Hk _ IH
                   | word p tokens s es Hw Hd _ IH
                   | word ents tokens s es Hw Hlen _ IH ];
    intros pre post correct_POS; cbn [foldM].
  - now rewrite Nat.add_0_r, app_nil_r.
  - unfold align_step at 1. unfold words in Hw. rewrite Hw. cbn [bind].
    specialize (IH (pre ++ [e])%list post (correct_POS ++ [ANewline])%list).
    rewrite length_app, <- !app_assoc in IH. cbn [length app] in IH.
    cbn [app length]. rewrite IH. f_equal. f_equal. lia.
  - unfold align_step at 1. unfold words in Hw. rewrite Hw, Hd. cbn [bind].
    specialize (IH (pre ++ skipped)%list post
                   (correct_POS ++ [APair word tag])%list).
    rewrite length_app, <- !app_assoc, Hk in IH. cbn [app] in IH.
    rewrite length_app, Hk, <- app_assoc, IH. f_equal. f_equal. lia.
  - unfold align_step at 1. unfold words in Hw. rewrite Hw, Hd.
    cbn [app]. rewrite tok_at_head. cbn [bind fst snd].
    specialize (IH (pre ++ [tok p])%list post
                   (correct_POS ++ [APair (fst p) (snd p)])%list).
    rewrite length_app, <- !app_assoc in IH. cbn [length app] in IH.
    cbn [length]. rewrite IH. f_equal. f_equal. lia.
  - pose proof (tok_at_middle pre (s ++ post) ents) as Hr.
    assert (Hr0 : forall p, nth_error ents 0 = Some p ->
              tok_at (pre ++ map tok ents ++ s ++ post) (length pre) = Ok p).
    { intros p Hp. rewrite <- (Nat.add_0_r (length pre)). now apply Hr. }
    specialize (IH (pre ++ map tok ents)%list post
                   (correct_POS ++ [APair (join "+" (map fst ents))
                                          (join "+" (map snd ents))])%list).
    rewrite length_app, length_map, <- !app_assoc in IH. cbn [app] in IH.
    rewrite <- app_assoc, length_app, length_map.
    replace (length pre + (length ents + length s))
      with (length pre + length ents + length s) by lia.
    rewrite <- IH. clear IH.
    remember (pre ++ map tok ents ++ s ++ post)%list as predicted_POS eqn:E.
    clear E. unfold align_step at 1. unfold words in *.
    destruct (length (split_ws word)) as [|[|[|[|[|m]]]]]; try lia;
      destruct ents as [|p1 [|p2 [|p3 [|p4 [|p5 ents]]]]]; simpl in Hlen;
      try discriminate;
      rewrite (Hr0 _ eq_refl); cbn [bind];
      rewrite (Hr 1 _ eq_refl); cbn [bind];
      try (rewrite (Hr 2 _ eq_refl); cbn [bind]);
      try (rewrite (Hr 3 _ eq_refl); cbn [bind]);
      reflexivity.
Qed.

(** X18: when the tagger output follows the reference tokens,
    [correct_pos] returns: the cursor ends at the end of the output, and
    the tags are those of the entries the tokens get (['\n'] for an empty
    token, the tag of the table, the tag of the tagger, or the tags of the
    tagger joined by [+]), all but the last. *)
Theorem correct_pos_Aligned (nlp : string -> list (string * string))
    (text orig_tokens : list string) (es : list aligned) :
  Aligned orig_tokens (predict_pos nlp text) es ->
  align (predict_pos nlp text) orig_tokens
  = Ok (length (predict_pos nlp text), es)
  /\ correct_pos nlp text orig_tokens = Ok (map pos_only (removelast es)).
Proof.
  intros H. pose proof (align_Aligned _ _ _ H [] [] []) as Ha.
  rewrite app_nil_r in Ha. cbn [app length Nat.add] in Ha.
  unfold correct_pos, align. rewrite Ha. split; reflexivity.
Qed.

Lemma correct_pos_Aligned_witness :
  correct_pos splitting_tagger ["a b c !!"; "d"]
              ["a"; "b c"; "!!"; nl; "d"; nl]
  = Ok ["X"; "X+X"; "$."; nl; "X"].
Proof.
  apply (correct_pos_Aligned splitting_tagger ["a b c !!"; "d"]
           ["a"; "b c"; "!!"; nl; "d"; nl]
           [APair "a" "X"; APair "b+c" "X+X"; APair "!!" "$."; ANewline;
            APair "d" "X"; ANewline]).
  change (predict_pos splitting_tagger ["a b c !!"; "d"])
    with (tok ("a", "X")
          :: (map tok [("b", "X"); ("c", "X")]
              ++ ([Tok "!" "$."; Tok "!" "$."]
                  ++ (Sep :: tok ("d", "X") :: [Sep]))))%list.
  apply (Aligned_one "a" ("a", "X")); [reflexivity | reflexivity |].
  apply (Aligned_multi "b c" [("b", "X"); ("c", "X")]);
    [vm_compute; lia | reflexivity |].
  apply (Aligned_exception "!!" "$." 2 [Tok "!" "$."; Tok "!" "$."]);
    [reflexivity | reflexivity | reflexivity |].
  apply Aligned_blank; [reflexivity|].
  apply (Aligned_one "d" ("d", "X")); [reflexivity | reflexivity |].
  apply Aligned_blank; [reflexivity|]. constructor.
Defined.

(** ** The aligner on a tagger output that is too short *)

Lemma tok_at_Ok_lt (predicted_POS : list tagged) (j : nat) (p : string * string) :
  tok_at predicted_POS j = Ok p -> j < length predicted_POS.
Proof.
  unfold tok_at, index. intros H. apply nth_error_Some.
  destruct (nth_error predicted_POS j); [discriminate | discriminate].
Qed.

Ltac read_tok_lt predicted_POS i H :=
  destruct (tok_at_cases predicted_POS i) as [-> | [? H]];
  [left; reflexivity | rewrite H; cbn [bind]; apply tok_at_Ok_lt in H].

Lemma align_step_reads (predicted_POS : list tagged) (i : nat)
    (correct_POS : list aligned) (word : string) :
  reads word ->
  align_step predicted_POS (i, correct_POS) word = Raise IndexError
  \/ exists e,
       align_step predicted_POS (i, correct_POS) word
       = Ok (i + words word, (correct_POS ++ [e])%list)
       /\ i + words word <= length predicted_POS.
Proof.
  intros ((Hlo & Hhi) & Hd). unfold align_step, words in *.
  destruct (length (split_ws word)) as [|[|[|[|[|m]]]]]; try lia.
  - rewrite (Hd eq_refl). read_tok_lt predicted_POS i H1.
    right. eexists. split; [reflexivity | lia].
  - read_tok_lt predicted_POS i H1. read_tok_lt predicted_POS (i + 1) H2.
    right. eexists. split; [reflexivity | lia].
  - read_tok_lt predicted_POS i H1. read_tok_lt predicted_POS (i + 1) H2.
    read_tok_lt predicted_POS (i + 2) H3.
    right. eexists. split; [reflexivity | lia].
  - read_tok_lt predicted_POS i H1. read_tok_lt predicted_POS (i + 1) H2.
    read_tok_lt predicted_POS (i + 2) H3. read_tok_lt predicted_POS (i + 3) H4.
    right. eexists. split; [reflexivity | lia].
Qed.

Lemma align_exhausted (predicted_POS : list tagged) (tokens : list string) :
  Forall reads tokens ->
  forall i correct_POS,
    i <= length predicted_POS ->
    length predicted_POS < i + list_sum (map words tokens) ->
    foldM (align_step predicted_POS) tokens (i, correct_POS) = Raise IndexError.
Proof.
  induction 1 as [|word tokens Hr _ IH]; intros i correct_POS Hi Hshort;
    cbn [foldM].
  - simpl in Hshort. lia.
  - destruct (align_step_reads predicted_POS i correct_POS word Hr)
      as [-> | (e & -> & Hle)]; [reflexivity|].
    cbn [bind]. apply IH; [assumption|]. simpl in Hshort. lia.
Qed.

(** X19: when every token is one for which the aligner reads the tagger
    output (one to four words, no form of the table [d]) and the tokens
    have more words than the output has entries, [correct_pos] raises
    [IndexError] and returns no tags.  So does the loop body on such a
    token when the cursor stands on the ['\n'] that closes a sentence of
    the output. *)
Theorem correct_pos_exhausted :
  (forall (nlp : string -> list (string * string))
          (text orig_tokens : list string),
     Forall reads orig_tokens ->
     length (predict_pos nlp text) < list_sum (map words orig_tokens) ->
     correct_pos nlp text orig_tokens = Raise IndexError)
  /\ (forall predicted_POS i correct_POS word,
        reads word ->
        nth_error predicted_POS i = Some Sep ->
        align_step predicted_POS (i, correct_POS) word = Raise IndexError).
Proof.
  split.
  - intros nlp text orig_tokens Hr Hshort. unfold correct_pos, align.
    rewrite (align_exhausted _ _ Hr 0 []); [reflexivity | lia | assumption].
  - intros predicted_POS i correct_POS word ((Hlo & Hhi) & Hd) Hsep.
    assert (Ht : tok_at predicted_POS i = Raise IndexError)
      by (unfold tok_at, index; now rewrite Hsep).
    unfold align_step, words in *.
    destruct (length (split_ws word)) as [|[|[|[|[|m]]]]]; try lia;
      [rewrite (Hd eq_refl)| | |]; rewrite Ht; reflexivity.
Qed.

Lemma correct_pos_exhausted_witness :
  correct_pos word_tagger ["a"] ["a"; "b c"] = Raise IndexError.
Proof.
  apply (proj1 correct_pos_exhausted word_tagger ["a"] ["a"; "b c"]).
  - repeat constructor; try (vm_compute; lia); intros _; reflexivity.
  - vm_compute. lia.
Defined.

(** ** The eight-column file *)

Lemma nth_error_combine_seq {A : Type} (l : list A) : forall start k,
  nth_error (combine (seq start (length l)) l) k
  = option_map (fun x => (start + k, x)) (nth_error l k).
Proof.
  induction l as [|x l IH]; intros start k; simpl.
  - now destruct k.
  - destruct k as [|k]; simpl; [now rewrite Nat.add_0_r|].
    rewrite IH. replace (S start + k) with (start + S k) by lia. reflexivity.
Qed.

Lemma write_line_only_IndexError (POS_lb POS_ub POS_bl : list string)
    (it : nat * string) (e : exn) :
  write_line POS_lb POS_ub POS_bl it = Raise e -> e = IndexError.
Proof.
  destruct it as [i line]. unfold write_line.
  destruct (line =? nl); [discriminate|].
  destruct (index POS_lb i) eqn:E1; simpl;
    [|intros H; injection H as <-; eapply index_only_IndexError; eauto].
  destruct (index POS_ub i) eqn:E2; simpl;
    [|intros H; injection H as <-; eapply index_only_IndexError; eauto].
  destruct (index POS_bl i) eqn:E3; simpl; [discriminate|].
  intros H; injection H as <-; eapply index_only_IndexError; eauto.
Qed.

Lemma write_line_Ok (POS_lb POS_ub POS_bl : list string) (i : nat)
    (line : string) :
  i < length POS_lb -> i < length POS_ub -> i < length POS_bl ->
  exists out,
    write_line POS_lb POS_ub POS_bl (i, line) = Ok out
    /\ (line = nl -> out = nl)
    /\ (line <> nl ->
        exists lb ub bl,
          nth_error POS_lb i = Some lb /\ nth_error POS_ub i = Some ub
          /\ nth_error POS_bl i = Some bl
          /\ out = rstrip line ++ tab ++ lb ++ tab ++ ub ++ tab ++ bl ++ nl).
Proof.
  intros H1 H2 H3. unfold write_line.
  destruct (String.eqb_spec line nl) as [->|Hne].
  - exists nl. split; [reflexivity|]. split; [reflexivity | congruence].
  - destruct (index_Ok POS_lb i H1) as (lb & -> & Hlb).
    destruct (index_Ok POS_ub i H2) as (ub & -> & Hub).
    destruct (index_Ok POS_bl i H3) as (bl & -> & Hbl).
    cbn [bind]. eexists. split; [reflexivity|]. split; [congruence|].
    intros _. exists lb, ub, bl. auto.
Qed.

Lemma write_outfile_Ok (orig_lines POS_lb POS_ub POS_bl : list string)
    (path_in : string) :
  length orig_lines <= length POS_lb ->
  length orig_lines <= length POS_ub ->
  length orig_lines <= length POS_bl ->
  exists outs,
    write_outfile orig_lines POS_lb POS_ub POS_bl path_in
    = Ok (path_in ++ "POS_out.txt", outs)
    /\ length outs = length orig_lines
    /\ forall k line,
         nth_error orig_lines k = Some line ->
         exists out,
           write_line POS_lb POS_ub POS_bl (k, line) = Ok out
           /\ nth_error outs k = Some out.
Proof.
  intros H1 H2 H3. unfold write_outfile.
  destruct (mapM_total (write_line POS_lb POS_ub POS_bl)
              (combine (seq 0 (length orig_lines)) orig_lines))
    as (outs & Houts).
  { apply Forall_forall. intros [i line] Hin.
    apply In_nth_error in Hin as (k & Hk).
    rewrite nth_error_combine_seq in Hk.
    destruct (nth_error orig_lines k) as [l|] eqn:E; [|discriminate].
    injection Hk as <- <-.
    assert (k < length orig_lines) by (apply nth_error_Some; congruence).
    destruct (write_line_Ok POS_lb POS_ub POS_bl k l) as (out & -> & _);
      [lia.. | eauto]. }
  rewrite Houts. cbn [bind]. exists outs. split; [reflexivity|].
  split.
  - rewrite (mapM_length _ _ _ Houts), length_combine, length_seq. lia.
  - intros k line Hk.
    apply (mapM_nth _ _ _ Houts k (k, line)).
    rewrite nth_error_combine_seq, Hk. reflexivity.
Qed.

(** X20: when each of the three tag lists is at least as long as the list
    of lines, [write_outfile] returns the name [path_in] followed by
    [POS_out.txt] and has written once per line: ['\n'] for an empty
    line, and for any other line the line without its trailing white
    space, a tabulator and the three tags of its index separated by
    tabulators, and ['\n']. *)
Theorem write_outfile_lines (orig_lines POS_lb POS_ub POS_bl : list string)
    (path_in : string) :
  length orig_lines <= length POS_lb ->
  length orig_lines <= length POS_ub ->
  length orig_lines <= length POS_bl ->
  exists outs,
    write_outfile orig_lines POS_lb POS_ub POS_bl path_in
    = Ok (path_in ++ "POS_out.txt", outs)
    /\ length outs = length orig_lines
    /\ (forall k, nth_error orig_lines k = Some nl ->
                  nth_error outs k = Some nl)
    /\ (forall k line,
          nth_error orig_lines k = Some line -> line <> nl ->
          exists lb ub bl,
            nth_error POS_lb k = Some lb /\ nth_error POS_ub k = Some ub
            /\ nth_error POS_bl k = Some bl
            /\ nth_error outs k
               = Some (rstrip line ++ tab ++ lb ++ tab ++ ub ++ tab ++ bl
                       ++ nl)).
Proof.
  intros H1 H2 H3.
  destruct (write_outfile_Ok orig_lines POS_lb POS_ub POS_bl path_in H1 H2 H3)
    as (outs & Hw & Hlen & Hnth).
  exists outs. split; [assumption|]. split; [assumption|]. split.
  - intros k Hk. destruct (Hnth k nl Hk) as (out & Hout & ->).
    unfold write_line in Hout. rewrite String.eqb_refl in Hout. congruence.
  - intros k line Hk Hne. destruct (Hnth k line Hk) as (out & Hout & ->).
    assert (Hk' : k < length orig_lines) by (apply nth_error_Some; congruence).
    destruct (write_line_Ok POS_lb POS_ub POS_bl k line)
      as (out' & Hout' & _ & Hline); [lia..|].
    destruct (Hline Hne) as (lb & ub & bl & Hlb & Hub & Hbl & ->).
    exists lb, ub, bl. repeat split; try assumption. congruence.
Qed.

Lemma write_outfile_lines_witness :
  exists outs,
    write_outfile [line_of "i"; nl] ["PPER"; nl] ["PPER"; nl] ["NN"; nl]
                  "dev_norm_"
    = Ok ("dev_norm_" ++ "POS_out.txt", outs)
    /\ length outs = 2
    /\ nth_error outs 1 = Some nl.
Proof.
  destruct (write_outfile_lines [line_of "i"; nl] ["PPER"; nl] ["PPER"; nl]
              ["NN"; nl] "dev_norm_") as (outs & H & Hlen & Hnl & _);
    [simpl; lia.. |].
  exists outs. split; [exact H|]. split; [exact Hlen|].
  apply (Hnl 1). reflexivity.
Defined.

(** X21: when a line that is not exactly the empty line stands at an
    index that one of the three tag lists does not reach,
    [write_outfile] raises [IndexError]. *)
Theorem write_outfile_short_tags (orig_lines POS_lb POS_ub POS_bl : list string)
    (path_in line : string) (k : nat) :
  nth_error orig_lines k = Some line ->
  line <> nl ->
  length POS_lb <= k \/ length POS_ub <= k \/ length POS_bl <= k ->
  write_outfile orig_lines POS_lb POS_ub POS_bl path_in = Raise IndexError.
Proof.
  intros Hk Hne Hshort. unfold write_outfile.
  rewrite (mapM_raise (write_line POS_lb POS_ub POS_bl) _ IndexError
             (write_line_only_IndexError POS_lb POS_ub POS_bl) (k, line));
    [reflexivity | |].
  - apply (nth_error_In _ k). rewrite nth_error_combine_seq, Hk. reflexivity.
  - unfold write_line. apply String.eqb_neq in Hne. rewrite Hne.
    destruct (index POS_lb k) as [lb|e] eqn:E1; cbn [bind];
      [|f_equal; eapply index_only_IndexError; eauto].
    destruct (index POS_ub k) as [ub|e] eqn:E2; cbn [bind];
      [|f_equal; eapply index_only_IndexError; eauto].
    destruct (index POS_bl k) as [bl|e] eqn:E3; cbn [bind];
      [|f_equal; eapply index_only_IndexError; eauto].
    apply index_Ok_inv in E1, E2, E3.
    assert (k < length POS_lb) by (apply nth_error_Some; congruence).
    assert (k < length POS_ub) by (apply nth_error_Some; congruence).
    assert (k < length POS_bl) by (apply nth_error_Some; congruence).
    lia.
Qed.

Lemma write_outfile_short_tags_witness :
  write_outfile [line_of "x"; line_of "a b c d e"; line_of "y"]
                ["X"; "X"] ["X"; "X"] ["X"; "X"] "dev_norm_"
  = Raise IndexError.
Proof.
  apply (write_outfile_short_tags _ _ _ _ _ (line_of "y") 2);
    [reflexivity | discriminate | left; simpl; lia].
Defined.

(** ** The counters of the accuracy calculation *)

Lemma count_line_tally_ok (t t' : tally) (line : string) :
  count_line t line = Ok t' -> tally_ok t -> tally_ok t'.
Proof.
  unfold count_line, tally_ok. intros H (H1 & H2 & H3).
  apply bind_Ok_inv in H as (gs & _ & H).
  apply bind_Ok_inv in H as (lb & _ & H).
  apply bind_Ok_inv in H as (ub & _ & H).
  apply bind_Ok_inv in H as (b & _ & H). injection H as <-. cbn.
  unfold incr_if.
  destruct (gs =? lb), (gs =? ub), (gs =? rstrip b); lia.
Qed.

Lemma count_step_tally_ok (c c' : tallies) (line : string) :
  count_step c line = Ok c' ->
  tally_ok (unique c) /\ tally_ok (ambigue c) /\ tally_ok (new c) ->
  tally_ok (unique c') /\ tally_ok (ambigue c') /\ tally_ok (new c').
Proof.
  unfold count_step. intros H (HU & HA & HN).
  destruct (startswith line "U");
    [|destruct (startswith line "A"); [|destruct (startswith line "N")]].
  - apply bind_Ok_inv in H as (t & Ht & H). injection H as <-. cbn.
    eauto using count_line_tally_ok.
  - apply bind_Ok_inv in H as (t & Ht & H). injection H as <-. cbn.
    eauto using count_line_tally_ok.
  - apply bind_Ok_inv in H as (t & Ht & H). injection H as <-. cbn.
    eauto using count_line_tally_ok.
  - injection H as <-. auto.
Qed.

Lemma foldM_invariant {A S : Type} (f : S -> A -> result S) (P : S -> Prop) :
  (forall s x s', f s x = Ok s' -> P s -> P s') ->
  forall l s s', foldM f l s = Ok s' -> P s -> P s'.
Proof.
  intros Hf. induction l as [|x l IH]; simpl; intros s s' H Hs.
  - now injection H as <-.
  - apply bind_Ok_inv in H as (s1 & H1 & H). eauto.
Qed.

(** X22: whatever the lines, when the counting loop of
    [calculate_accuracies] completes, no agreement counter exceeds the
    number of lines of its strategy, in any of the three settings. *)
Theorem count_lines_agreement_bounded (lines : list string) (c : tallies) :
  count_lines lines = Ok c ->
  tally_ok (unique c) /\ tally_ok (ambigue c) /\ tally_ok (new c).
Proof.
  intros H. unfold count_lines in H.
  apply (foldM_invariant count_step
           (fun c => tally_ok (unique c) /\ tally_ok (ambigue c)
                     /\ tally_ok (new c))
           (fun s x s' => count_step_tally_ok s s' x) _ _ _ H).
  unfold tally_ok. cbn. lia.
Qed.

Lemma count_lines_agreement_bounded_witness :
  tally_ok {| n := 1; same_lb := 0; same_ub := 1; same_b := 1 |}.
Proof.
  apply (count_lines_agreement_bounded
           [ "U" ++ tab ++ "i" ++ tab ++ "ich" ++ tab ++ "ich" ++ tab ++ "PPER"
             ++ tab ++ "NN" ++ tab ++ "PPER" ++ tab ++ "PPER" ++ nl ]
           {| unique := {| n := 1; same_lb := 0; same_ub := 1; same_b := 1 |};
              ambigue := tally0; new := tally0 |}).
  reflexivity.
Defined.

(** X23: on a file of well-formed lines in which each of the three
    strategies has a line, [calculate_accuracies] returns; the four counts
    are the numbers of lines that start with [U], with [A] and with [N]
    and their sum, and each accuracy is the rounded percentage of an
    agreement counter over its count. *)
Theorem calculate_accuracies_returns (F : Type)
    (truediv : nat -> nat -> F) (times round : F -> nat -> F)
    (lines : list string) :
  forallb report_line_ok lines = true ->
  0 < bucket "U" lines -> 0 < bucket "A" lines -> 0 < bucket "N" lines ->
  let percent := fun same total => round (times (truediv same total) 100) 2 in
  exists c,
    count_lines lines = Ok c
    /\ n (unique c) = bucket "U" lines
    /\ n (ambigue c) = bucket "A" lines
    /\ n (new c) = bucket "N" lines
    /\ calculate_accuracies F truediv times round lines
       = let U := unique c in
         let A := ambigue c in
         let N := new c in
         let total := n U + n A + n N in
         Ok ((n U, n A, n N, total),
             (percent (same_lb U) (n U), percent (same_lb A) (n A),
              percent (same_lb N) (n N),
              percent (same_lb U + same_lb A + same_lb N) total),
             (percent (same_ub U) (n U), percent (same_ub A) (n A),
              percent (same_ub N) (n N),
              percent (same_ub U + same_ub A + same_ub N) total),
             (percent (same_b U) (n U), percent (same_b A) (n A),
              percent (same_b N) (n N),
              percent (same_b U + same_b A + same_b N) total)).
Proof.
  intros Hok HU HA HN percent.
  destruct (count_lines_from lines Hok
              {| unique := tally0; ambigue := tally0; new := tally0 |})
    as (c & Hc & EU & EA & EN).
  cbn in EU, EA, EN. exists c.
  split; [exact Hc|]. split; [assumption|]. split; [assumption|].
  split; [assumption|].
  unfold calculate_accuracies, count_lines. rewrite Hc. cbn [bind].
  unfold accuracy.
  destruct (Nat.eqb_spec (n (unique c)) 0) as [|_]; [lia|].
  destruct (Nat.eqb_spec (n (ambigue c)) 0) as [|_]; [lia|].
  destruct (Nat.eqb_spec (n (new c)) 0) as [|_]; [lia|].
  destruct (Nat.eqb_spec (n (unique c) + n (ambigue c) + n (new c)) 0)
    as [|_]; [lia|].
  reflexivity.
Qed.

Lemma calculate_accuracies_returns_witness :
  exists c,
    count_lines
      [ "U" ++ tab ++ "i" ++ tab ++ "ich" ++ tab ++ "ich" ++ tab ++ "PPER"
        ++ tab ++ "NN" ++ tab ++ "PPER" ++ tab ++ "PPER" ++ nl;
        nl;
        "A" ++ tab ++ "viiu" ++ tab ++ "viel" ++ tab ++ "viele" ++ tab ++ "PIS"
        ++ tab ++ "NN" ++ tab ++ "PIS" ++ tab ++ "PIS" ++ nl;
        "N" ++ tab ++ "zz" ++ tab ++ "zz" ++ tab ++ "ganz" ++ tab ++ "ADV"
        ++ tab ++ "NN" ++ tab ++ "ADV" ++ tab ++ "NN" ++ nl ] = Ok c
    /\ n (unique c) = 1 /\ n (ambigue c) = 1 /\ n (new c) = 1.
Proof.
  destruct (calculate_accuracies_returns nat Nat.div Nat.mul (fun x _ => x)
      [ "U" ++ tab ++ "i" ++ tab ++ "ich" ++ tab ++ "ich" ++ tab ++ "PPER"
        ++ tab ++ "NN" ++ tab ++ "PPER" ++ tab ++ "PPER" ++ nl;
        nl;
        "A" ++ tab ++ "viiu" ++ tab ++ "viel" ++ tab ++ "viele" ++ tab ++ "PIS"
        ++ tab ++ "NN" ++ tab ++ "PIS" ++ tab ++ "PIS" ++ nl;
        "N" ++ tab ++ "zz" ++ tab ++ "zz" ++ tab ++ "ganz" ++ tab ++ "ADV"
        ++ tab ++ "NN" ++ tab ++ "ADV" ++ tab ++ "NN" ++ nl ])
    as (c & Hc & H1 & H2 & H3 & _);
    [reflexivity | vm_compute; lia | vm_compute; lia | vm_compute; lia |].
  exists c. auto.
Defined.

(** ** From the written line to the counters *)

Lemma rstrip_app_keep (s t : string) :
  rstrip t <> EmptyString ->
  rstrip (s ++ t) = s ++ rstrip t /\ rstrip (s ++ t) <> EmptyString.
Proof.
  intros H. induction s as [|c s (IH & IHne)]; simpl; [auto|].
  rewrite IH. destruct (s ++ rstrip t) eqn:E.
  - destruct s; simpl in E; [contradiction | discriminate].
  - split; [reflexivity | discriminate].
Qed.

Lemma rstrip_app_nl (s : string) : rstrip (s ++ nl) = rstrip s.
Proof.
  induction s as [|c s IH]; simpl; [reflexivity | now rewrite IH].
Qed.

Lemma mem_char_app (c : ascii) (s t : string) :
  mem_char c (s ++ t) = mem_char c s || mem_char c t.
Proof.
  induction s as [|a s IH]; simpl; [reflexivity|].
  rewrite !mem_char_cons, IH. now rewrite orb_assoc.
Qed.

Lemma mem_char_rstrip (c : ascii) (s : string) :
  mem_char c s = false -> mem_char c (rstrip s) = false.
Proof.
  induction s as [|a s IH]; simpl; [auto|].
  rewrite mem_char_cons. intros H. apply orb_false_elim in H as (Ha & Hs).
  specialize (IH Hs). destruct (rstrip s) as [|b r].
  - destruct (isspace a); [reflexivity|].
    rewrite mem_char_cons, Ha. reflexivity.
  - rewrite mem_char_cons, Ha, IH. reflexivity.
Qed.

Lemma rstrip_line_out (r : out_record) :
  rstrip (POS r) <> EmptyString ->
  rstrip (line_out r)
  = n_strategy r ++ tab ++ non_standard r ++ tab ++ n_pred r ++ tab
    ++ standard r ++ tab ++ rstrip (POS r).
Proof.
  intros H. unfold line_out.
  destruct (rstrip_app_keep tab (POS r) H) as (E1 & N1).
  destruct (rstrip_app_keep (standard r) _ N1) as (E2 & N2).
  destruct (rstrip_app_keep tab _ N2) as (E3 & N3).
  destruct (rstrip_app_keep (n_pred r) _ N3) as (E4 & N4).
  destruct (rstrip_app_keep tab _ N4) as (E5 & N5).
  destruct (rstrip_app_keep (non_standard r) _ N5) as (E6 & N6).
  destruct (rstrip_app_keep tab _ N6) as (E7 & N7).
  destruct (rstrip_app_keep (n_strategy r) _ N7) as (E8 & _).
  rewrite E8, E7, E6, E5, E4, E3, E2, E1. reflexivity.
Qed.

(** X24: a line that [normalize] wrote (five columns without tabulator,
    the gold tag not blank), extended by [write_outfile] with three tags
    without tabulator, is counted by [calculate_accuracies] as follows:
    the total goes up by one; the gold tag without its trailing white
    space is compared with the lower-bound and upper-bound tags as they
    are, and with the baseline tag without its trailing white space. *)
Theorem count_line_of_written_line (r : out_record) (lb ub bl : string)
    (t : tally) :
  mem_char TAB (n_strategy r) = false ->
  mem_char TAB (non_standard r) = false ->
  mem_char TAB (n_pred r) = false ->
  mem_char TAB (standard r) = false ->
  mem_char TAB (POS r) = false ->
  rstrip (POS r) <> EmptyString ->
  mem_char TAB lb = false -> mem_char TAB ub = false ->
  mem_char TAB bl = false ->
  write_line [lb] [ub] [bl] (0, line_out r)
  = Ok (rstrip (line_out r) ++ tab ++ lb ++ tab ++ ub ++ tab ++ bl ++ nl)
  /\ split TAB (rstrip (line_out r) ++ tab ++ lb ++ tab ++ ub ++ tab ++ bl ++ nl)
     = [n_strategy r; non_standard r; n_pred r; standard r; rstrip (POS r);
        lb; ub; bl ++ nl]
  /\ count_line t
       (rstrip (line_out r) ++ tab ++ lb ++ tab ++ ub ++ tab ++ bl ++ nl)
     = Ok {| n := n t + 1;
             same_lb := incr_if (rstrip (POS r) =? lb) (same_lb t);
             same_ub := incr_if (rstrip (POS r) =? ub) (same_ub t);
             same_b := incr_if (rstrip (POS r) =? rstrip bl) (same_b t) |}.
Proof.
  intros F1 F2 F3 F4 F5 Hpos Flb Fub Fbl.
  assert (Hsplit :
    split TAB (rstrip (line_out r) ++ tab ++ lb ++ tab ++ ub ++ tab ++ bl ++ nl)
    = [n_strategy r; non_standard r; n_pred r; standard r; rstrip (POS r);
       lb; ub; bl ++ nl]).
  { rewrite rstrip_line_out by assumption.
    rewrite !string_app_assoc. unfold tab. cbn [append].
    pose proof (mem_char_rstrip TAB _ F5) as F5'.
    repeat (rewrite split_app_sep by assumption; f_equal).
    apply split_free. rewrite mem_char_app, Fbl. reflexivity. }
  split; [|split; [exact Hsplit|]].
  - unfold write_line.
    assert (Hne : (line_out r =? nl) = false).
    { apply String.eqb_neq. intros E.
      assert (Hr : rstrip (line_out r) = EmptyString) by now rewrite E.
      rewrite rstrip_line_out in Hr by assumption.
      destruct (rstrip_app_keep
                  (n_strategy r ++ tab ++ non_standard r ++ tab ++ n_pred r
                   ++ tab ++ standard r ++ tab) (POS r) Hpos) as (E1 & N1).
      apply N1. rewrite E1.
      rewrite !string_app_assoc. exact Hr. }
    rewrite Hne. reflexivity.
  - unfold count_line. rewrite Hsplit. unfold index. cbn [nth_error bind].
    now rewrite rstrip_app_nl.
Qed.

Lemma count_line_of_written_line_witness :
  count_line tally0
    ("A" ++ tab ++ "viiu" ++ tab ++ "viel" ++ tab ++ "viele" ++ tab ++ "PIS"
     ++ tab ++ "NN" ++ tab ++ "PIS" ++ tab ++ "PIS" ++ nl)
  = Ok {| n := 1; same_lb := 0; same_ub := 1; same_b := 1 |}.
Proof.
  apply (proj2 (proj2 (count_line_of_written_line
           {| n_strategy := "A"; non_standard := "viiu"; n_pred := "viel";
              standard := "viele"; POS := "PIS" ++ nl |}
           "NN" "PIS" "PIS" tally0
           eq_refl eq_refl eq_refl eq_refl eq_refl ltac:(discriminate)
           eq_refl eq_refl eq_refl))).
Defined.

(** ** The statements of main for one data set *)




(** ** A tagger that keeps the reference tokenisation *)

Lemma sentences_of_concat (text : list string) : forall sentence,
  flat_map (fun g => (g ++ [nl])%list) (sentences_of sentence text)
  = (sentence ++ text ++ [nl])%list.
Proof.
  induction text as [|token text IH]; intros sentence; simpl.
  - now rewrite app_nil_r.
  - destruct (String.eqb_spec token nl) as [->|Hne]; simpl.
    + rewrite IH. simpl. now rewrite <- app_assoc.
    + rewrite IH. now rewrite <- app_assoc.
Qed.

Lemma sentences_of_simple (text : list string) : forall sentence,
  Forall (fun token => token = nl \/ simple token) text ->
  Forall simple sentence ->
  Forall (Forall simple) (sentences_of sentence text).
Proof.
  induction text as [|token text IH]; intros sentence Ht Hs; simpl.
  - constructor; [assumption | constructor].
  - inversion Ht as [|? ? Htok Ht']; subst.
    destruct (String.eqb_spec token nl) as [->|Hne].
    + constructor; [assumption|]. apply IH; [assumption | constructor].
    + apply IH; [assumption|]. apply Forall_app. split; [assumption|].
      constructor; [tauto | constructor].
Qed.

Lemma Aligned_app (t1 t2 : list string) (s1 s2 : list tagged)
    (e1 e2 : list aligned) :
  Aligned t1 s1 e1 -> Aligned t2 s2 e2 ->
  Aligned (t1 ++ t2) (s1 ++ s2) (e1 ++ e2).
Proof.
  intros H1 H2. induction H1; simpl; try assumption.
  - now apply Aligned_blank.
  - rewrite <- app_assoc. eapply Aligned_exception; eauto.
  - now apply Aligned_one.
  - rewrite <- app_assoc. now apply Aligned_multi.
Qed.

Lemma Aligned_simple (g : list string) : forall ps : list (string * string),
  Forall simple g -> length ps = length g ->
  Aligned g (map tok ps) (map (fun p => APair (fst p) (snd p)) ps).
Proof.
  induction g as [|word g IH]; intros [|p ps] Hg Hlen; try discriminate; simpl.
  - constructor.
  - inversion Hg as [|? ? (Hw & Hd) Hg']; subst.
    apply Aligned_one; auto.
Qed.

Lemma Aligned_sentences (nlp : string -> list (string * string))
    (gs : list (list string)) :
  Forall (Forall simple) gs ->
  Forall (fun g => length (nlp (join " " g)) = length g) gs ->
  Aligned (flat_map (fun g => (g ++ [nl])%list) gs)
          (predict_pos nlp (map (join " ") gs))
          (flat_map (fun g => (map (fun p => APair (fst p) (snd p))
                                   (nlp (join " " g)) ++ [ANewline])%list) gs).
Proof.
  induction 1 as [|g gs Hg _ IH]; intros Hlen; simpl; [constructor|].
  inversion Hlen as [|? ? Hl Hlen']; subst.
  rewrite <- !app_assoc. apply Aligned_app; [now apply Aligned_simple|].
  simpl. apply Aligned_blank; [reflexivity|]. now apply IH.
Qed.

Lemma flat_map_closed_last {A B : Type} (h : A -> list B) (x : B) (l : list A) :
  l <> [] ->
  exists pre, flat_map (fun a => (h a ++ [x])%list) l = (pre ++ [x])%list.
Proof.
  induction l as [|a l IH]; intros Hne; [congruence|]. simpl.
  destruct l as [|b l].
  - exists (h a). now rewrite app_nil_r.
  - destruct IH as (pre & ->); [discriminate|].
    exists (h a ++ [x] ++ pre)%list. now rewrite <- !app_assoc.
Qed.

Lemma sentences_of_nonempty (text sentence : list string) :
  sentences_of sentence text <> [].
Proof.
  revert sentence; induction text as [|token text IH]; intros sentence; simpl;
    [discriminate|].
  destruct (token =? nl); [discriminate | apply IH].
Qed.

Lemma Aligned_lengths (tokens : list string) (s : list tagged)
    (es : list aligned) :
  Aligned tokens s es -> length tokens = length es.
Proof. induction 1; simpl; congruence. Qed.

(** X26: when the lines and the tokens of a column have their empty items
    at the same indexes, every other token is one word and no form of the
    table [d], and the tagger returns as many (token, tag) pairs for each
    sentence as the sentence has tokens, the two statements of [main] for
    the column return the tags of the tagger in order, with ['\n'] between
    the sentences: the returned tags followed by one ['\n'] are the tags of
    the sentences, each sentence closed by ['\n']. *)
Theorem tag_column_one_to_one (nlp : string -> list (string * string))
    (text lines : list string) :
  Forall2 (fun token line => token = nl <-> line = nl) text lines ->
  Forall (fun token => token = nl \/ simple token) text ->
  Forall (fun g => length (nlp (join " " g)) = length g)
         (sentences_of [] text) ->
  exists POS,
    tag_column nlp text lines
    = Ok (POS, (lines ++ repeat nl (length text + 1))%list)
    /\ length POS = length text
    /\ (POS ++ [nl])%list
       = flat_map (fun g => (map snd (nlp (join " " g)) ++ [nl])%list)
                  (sentences_of [] text).
Proof.
  intros Hcons Htok Hnlp.
  pose proof (Aligned_sentences nlp (sentences_of [] text)
                (sentences_of_simple text [] Htok (Forall_nil _)) Hnlp) as Ha.
  rewrite sentences_of_concat in Ha. cbn [app] in Ha.
  unfold tag_column. rewrite extract_sentences_eq.
  rewrite (group_consistent _ _ Hcons).
  pose proof (align_Aligned _ _ _ Ha [] [] []) as Hrun.
  rewrite app_nil_r in Hrun. cbn [app length Nat.add] in Hrun.
  unfold correct_pos, align. rewrite Hrun. cbn [bind snd].
  destruct (flat_map_closed_last
              (fun g => map (fun p => APair (fst p) (snd p)) (nlp (join " " g)))
              ANewline (sentences_of [] text) (sentences_of_nonempty _ _))
    as (pre & Hpre).
  assert (Hmap : forall gs : list (list string),
    map pos_only
        (flat_map (fun g => (map (fun p => APair (fst p) (snd p))
                                 (nlp (join " " g)) ++ [ANewline])%list) gs)
    = flat_map (fun g => (map snd (nlp (join " " g)) ++ [nl])%list) gs).
  { induction gs as [|g gs IH]; simpl; [reflexivity|].
    rewrite !map_app, IH, map_map. reflexivity. }
  rewrite <- Hmap, Hpre, removelast_last, map_app.
  exists (map pos_only pre). split; [reflexivity|]. split; [|reflexivity].
  apply Aligned_lengths in Ha. rewrite Hpre, !length_app in Ha.
  rewrite length_map. simpl in Ha. lia.
Qed.

Lemma tag_column_one_to_one_witness :
  exists POS,
    tag_column word_tagger ["i"; "muen"; nl; "Die"]
               [line_of "i"; line_of "muen"; nl; line_of "Die"]
    = Ok (POS, ([line_of "i"; line_of "muen"; nl; line_of "Die"]
                ++ repeat nl 5)%list)
    /\ length POS = 4
    /\ (POS ++ [nl])%list = ["X"; "X"; nl; "X"; nl].
Proof.
  apply (tag_column_one_to_one word_tagger ["i"; "muen"; nl; "Die"]
           [line_of "i"; line_of "muen"; nl; line_of "Die"]).
  - repeat (constructor; [split; intros E; (discriminate || reflexivity)|]).
    constructor.
  - repeat (constructor;
            [first [left; reflexivity | right; split; reflexivity]|]).
    constructor.
  - repeat (constructor; [reflexivity|]). constructor.
Defined.

Lemma sent_boundaries_spec_witness :
  fst (sent_boundaries ["a"; nl; "b"]) = [1; 3] /\ 1 < 3.
Proof.
  split; [reflexivity|].
  apply (proj2 (proj2 (proj2 (proj2 (sent_boundaries_spec ["a"; nl; "b"]))))
           0 1 1 3); [lia | reflexivity | reflexivity].
Defined.
